(** * ping_pong: the entity physics and the modal command interpreter of ping.c

    The development embeds the pure core of [ping.c]: the viewport macros,
    the boundary predicates, [constrain], [entity_move], [handle_command]
    and the loop of [main].  Of the terminal output only the cells that
    [entity_draw] writes are modelled, as the list of cursor positions; the
    one input effect, [getchar], is made explicit as the value the call
    returned, and the global [tty_context] as a parameter.

    [f64] is [long double].  Its format is implementation defined, so the
    model is parametric in the precision [prec] and the exponent bound
    [emax] of a binary IEEE-754 format, with the operations of the standard
    library's [SpecFloat] (round to nearest even).  Properties of the
    control flow hold in every format.  Properties that rest on arithmetic
    assume a format at least as wide as binary64 ([53 <= prec],
    [1024 <= emax]), as C requires of [long double], and terminal
    dimensions that fit the [unsigned short] fields of [struct winsize].
    Concrete runs use the x87 extended format of the x86-64 ABI
    ([prec = 64], [emax = 16384]). *)

From Stdlib Require Import ZArith Bool List Lia Ascii.
From Stdlib Require Import SpecFloat.
Import ListNotations.

Local Open Scope Z_scope.

(** ** Data model *)

(** [typedef long double f64;] *)
Definition f64 : Type := spec_float.

(** [typedef struct { f64 x, y; } vec2;] *)
Record vec2 : Type := mk_vec2 { x : f64; y : f64 }.

(** [typedef struct { vec2 pos; vec2 delta; vec2 size; } entity_t;] *)
Record entity_t : Type := mk_entity { pos : vec2; delta : vec2; size : vec2 }.

(** [tty_ctx_t], restricted to the two fields the core reads.  Both are
    [int]s that [set_dimensions] fills from the [unsigned short] fields of
    [struct winsize]. *)
Record tty_ctx_t : Type := mk_tty { rows : Z; cols : Z }.

(** The values [set_dimensions] can store. *)
Definition tty_wf (tty : tty_ctx_t) : Prop :=
  0 <= rows tty <= 65535 /\ 0 <= cols tty <= 65535.

(** [typedef enum { NORMAL, RESIZE, SPEED, QUIT } command_state_t;] *)
Inductive command_state_t : Type := NORMAL | RESIZE | SPEED | QUIT.

(** A character constant, as the [int] that [getchar] returns for it. *)
Definition key (a : ascii) : Z := Z.of_N (N_of_ascii a).

(** [EOF] of glibc: what the non-blocking [getchar] returns when no key is
    waiting. *)
Definition EOF : Z := -1.

Definition is_nan (v : f64) : bool :=
  match v with S754_nan => true | _ => false end.

Definition is_finite (v : f64) : bool :=
  match v with S754_zero _ | S754_finite _ _ _ => true | _ => false end.

Definition vec2_finite (a : vec2) : bool := is_finite (x a) && is_finite (y a).

Definition entity_finite (e : entity_t) : bool :=
  vec2_finite (pos e) && vec2_finite (delta e) && vec2_finite (size e).

Section Format.

Variables prec emax : Z.

(** Conversion of an [int] to [f64]. *)
Definition of_int (n : Z) : f64 := binary_normalize prec emax n 0 false.

(** Conversion of a [double] to [f64]. *)
Definition of_double (d : spec_float) : f64 :=
  match d with
  | S754_finite s m e => binary_normalize prec emax (cond_Zopp s (Zpos m)) e s
  | _ => d
  end.

Definition fadd : f64 -> f64 -> f64 := SFadd prec emax.
Definition fsub : f64 -> f64 -> f64 := SFsub prec emax.
Definition fmul : f64 -> f64 -> f64 := SFmul prec emax.
Definition fdiv : f64 -> f64 -> f64 := SFdiv prec emax.
(** Unary minus.  The format has a single NaN, which carries no sign and
    no payload: [fneg] maps it to itself, whereas the machine flips the
    sign bit of a NaN.  On every other value (zeros, numbers, infinities)
    [fneg] flips the sign as the machine does.  Statements about [fneg]
    that compare results for equality are made for operands that are not
    NaN. *)
Definition fneg : f64 -> f64 := SFopp.
Definition fabs : f64 -> f64 := SFabs.

(** The C comparisons [a < b], [a <= b], [a > b], [a >= b]; each is false
    when an operand is a NaN. *)
Definition flt (a b : f64) : bool := SFltb a b.
Definition fle (a b : f64) : bool := SFleb a b.
Definition fgt (a b : f64) : bool := SFltb b a.
Definition fge (a b : f64) : bool := SFleb b a.

(** The C operator [!] on an [f64]: [1] when the operand compares equal
    to zero, [0] otherwise (a NaN is not equal to zero). *)
Definition lnot (v : f64) : Z := if SFeqb v (of_int 0) then 1 else 0.

Definition vec2_add (a b : vec2) : vec2 :=
  mk_vec2 (fadd (x a) (x b)) (fadd (y a) (y b)).

Definition vec2_sub (a b : vec2) : vec2 :=
  mk_vec2 (fsub (x a) (x b)) (fsub (y a) (y b)).

(** [vec2_negate]: [-a.x, -a.y].  A NaN component is returned as the one
    NaN of the format (see [fneg]); its sign bit is not modelled. *)
Definition vec2_negate (a : vec2) : vec2 :=
  mk_vec2 (fneg (x a)) (fneg (y a)).

Section Viewport.

(** The global [tty_context]. *)
Variable tty_context : tty_ctx_t.

Definition DISPLAY_WIDTH : Z := cols tty_context - 1.
Definition DISPLAY_HEIGHT : Z := rows tty_context - 1.

(** [int] division truncates toward zero. *)
Definition MAX_ENTITY_WIDTH : Z := Z.quot DISPLAY_WIDTH 2.
Definition MAX_ENTITY_HEIGHT : Z := Z.quot DISPLAY_HEIGHT 2.

Definition MIN_ENTITY_WIDTH : Z := 1.
Definition MIN_ENTITY_HEIGHT : Z := 1.

Definition MAX_ENTITY_DELTA_X : Z := DISPLAY_WIDTH.
Definition MAX_ENTITY_DELTA_Y : Z := DISPLAY_HEIGHT.

Definition MIN_ENTITY_DELTA_X : Z := 0.
Definition MIN_ENTITY_DELTA_Y : Z := 0.

Definition out_of_bounds_x (v : f64) : bool :=
  fgt (of_int 1) v || fge v (of_int DISPLAY_WIDTH).
Definition out_of_bounds_y (v : f64) : bool :=
  fgt (of_int 1) v || fge v (of_int DISPLAY_HEIGHT).
Definition out_of_bounds (p : vec2) : bool :=
  out_of_bounds_x (x p) || out_of_bounds_y (y p).

Definition constrain_x (v : f64) : f64 :=
  if flt v (of_int 1) then of_int 1
  else if fge v (of_int DISPLAY_WIDTH) then of_int (DISPLAY_WIDTH - 1)
  else v.
Definition constrain_y (v : f64) : f64 :=
  if flt v (of_int 1) then of_int 1
  else if fge v (of_int DISPLAY_HEIGHT) then of_int (DISPLAY_HEIGHT - 1)
  else v.
Definition constrain (v : vec2) : vec2 :=
  mk_vec2 (constrain_x (x v)) (constrain_y (y v)).

Definition collision_x (v : f64) : bool :=
  fge (of_int 1) v || fge v (of_int DISPLAY_WIDTH).
Definition collision_y (v : f64) : bool :=
  fge (of_int 1) v || fge v (of_int DISPLAY_HEIGHT).
Definition collision (p : vec2) : bool :=
  collision_x (x p) || collision_y (y p).

(** The two tentative points of [entity_move]. *)
Definition new_pos_of (e : entity_t) : vec2 := vec2_add (pos e) (delta e).
Definition new_end_of (e : entity_t) : vec2 :=
  vec2_add (vec2_add (pos e) (size e)) (delta e).

(** The reflection both passes of [entity_move] perform, on the point
    [p] that collided. *)
Definition reflect (p : vec2) (d : vec2) : vec2 :=
  if collision_x (x p) then mk_vec2 (fneg (x d)) (y d)
  else mk_vec2 (x d) (fneg (y d)).

(** [void entity_move(entity_t *e)], returning the updated entity. *)
Definition entity_move (e : entity_t) : entity_t :=
  let end_ := vec2_add (pos e) (size e) in
  let new_pos := vec2_add (pos e) (delta e) in
  let new_end := vec2_add end_ (delta e) in
  if collision new_pos then
    mk_entity (constrain new_pos) (reflect new_pos (delta e)) (size e)
  else if collision new_end then
    mk_entity (vec2_sub (constrain new_end) (size e))
              (reflect new_end (delta e)) (size e)
  else
    mk_entity new_pos (delta e) (size e).

(** [command_state_t handle_command(const command_state_t command,
    entity_t *e)]; [c] is the value of [getchar()], and the updated
    entity is returned with the new mode. *)
Definition handle_command (c : Z) (command : command_state_t)
    (e : entity_t) : command_state_t * entity_t :=
  if c =? key "q" then (QUIT, e)
  else if c =? key "n" then (NORMAL, e)
  else
    match command with
    | QUIT => (QUIT, e)
    | NORMAL =>
        if c =? key "r" then (RESIZE, e)
        else if c =? key "s" then (SPEED, e)
        else (command, e)
    | RESIZE =>
        if c =? key "w" then
          if flt (x (size e)) (of_int MAX_ENTITY_WIDTH)
             && flt (y (size e)) (of_int MAX_ENTITY_HEIGHT)
          then (command,
                mk_entity (pos e) (delta e)
                  (mk_vec2 (fadd (x (size e)) (of_int 1))
                           (fadd (y (size e)) (of_int 1))))
          else (command, e)
        else if c =? key "s" then
          if fgt (x (size e)) (of_int MIN_ENTITY_WIDTH)
             && fgt (y (size e)) (of_int MIN_ENTITY_HEIGHT)
          then (command,
                mk_entity (pos e) (delta e)
                  (mk_vec2 (fsub (x (size e)) (of_int 1))
                           (fsub (y (size e)) (of_int 1))))
          else (command, e)
        else (command, e)
    | SPEED =>
        if c =? key "w" then
          if flt (x (delta e)) (of_int MAX_ENTITY_DELTA_X)
             && flt (y (delta e)) (of_int MAX_ENTITY_DELTA_Y)
          then (command,
                mk_entity (pos e)
                  (mk_vec2
                     (fmul (fadd (of_int (lnot (x (delta e)))) (x (delta e)))
                           (of_int 2))
                     (fmul (fadd (of_int (lnot (y (delta e)))) (y (delta e)))
                           (of_int 2)))
                  (size e))
          else (command, e)
        else if c =? key "s" then
          if fgt (x (delta e)) (of_int MIN_ENTITY_DELTA_X)
             && fgt (y (delta e)) (of_int MIN_ENTITY_DELTA_Y)
          then (command,
                mk_entity (pos e)
                  (mk_vec2 (fdiv (x (delta e)) (of_int 2))
                           (fdiv (y (delta e)) (of_int 2)))
                  (size e))
          else (command, e)
        else (command, e)
    end.

(** One iteration of the loop of [main], without its output: the entity
    is advanced, then one command is read. *)
Definition frame (c : Z) (command : command_state_t) (ball : entity_t)
    : command_state_t * entity_t :=
  handle_command c command (entity_move ball).

(** The loop of [main] over the values successive [getchar] calls
    return; it is left as soon as the mode is [QUIT]. *)
Fixpoint main_loop (input : list Z) (command : command_state_t)
    (ball : entity_t) : command_state_t * entity_t :=
  match input with
  | [] => (command, ball)
  | c :: rest =>
      let '(command', ball') := frame c command ball in
      match command' with
      | QUIT => (QUIT, ball')
      | _ => main_loop rest command' ball'
      end
  end.

End Viewport.

(** The [double] constant [0.005]: the binary64 number nearest to
    5/1000. *)
Definition double_0_005 : spec_float :=
  SFdiv 53 1024 (binary_normalize 53 1024 5 0 false)
                (binary_normalize 53 1024 1000 0 false).

Definition DEFAULT_ENTITY_PROPERTIES : entity_t :=
  mk_entity (mk_vec2 (of_int 1) (of_int 60))
            (mk_vec2 (of_double double_0_005) (of_double double_0_005))
            (mk_vec2 (of_int 2) (of_int 1)).

End Format.

(** ** The formats of [long double] and concrete inputs *)

(** x87 extended precision, the [long double] of the x86-64 ABI. *)
Definition x87_prec : Z := 64.
Definition x87_emax : Z := 16384.

(** The formats [long double] has on the common ABIs: binary64, x87
    extended and binary128, each as [(prec, emax)]. *)
Definition long_double_formats : list (Z * Z) :=
  [(53, 1024); (x87_prec, x87_emax); (113, 16384)].

(** A terminal of 80 columns by 24 rows. *)
Definition tty_80x24 : tty_ctx_t := mk_tty 24 80.

(** The number [m * 2^e] in the x87 format. *)
Definition x87 (m e : Z) : f64 := binary_normalize x87_prec x87_emax m e false.

Definition x87_int (n : Z) : f64 := of_int x87_prec x87_emax n.

(** ** Predicates of the specification *)

Section Predicates.

Variables prec emax : Z.
Variable tty : tty_ctx_t.

Let num := of_int prec emax.

(** A point within the viewport bounds: [1 <= x <= DISPLAY_WIDTH] and
    [1 <= y <= DISPLAY_HEIGHT]. *)
Definition point_in_viewport (p : vec2) : bool :=
  fle (num 1) (x p) && fle (x p) (num (DISPLAY_WIDTH tty))
  && fle (num 1) (y p) && fle (y p) (num (DISPLAY_HEIGHT tty)).

(** Position and far corner within the viewport bounds. *)
Definition in_viewport (e : entity_t) : bool :=
  point_in_viewport (pos e)
  && point_in_viewport (vec2_add prec emax (pos e) (size e)).

(** A point whose coordinates lie in [[1, bound - 1]]; the two clamp
    values [1] and [bound - 1] are the ends of that interval. *)
Definition point_in_clamp_range (p : vec2) : bool :=
  fle (num 1) (x p) && fle (x p) (num (DISPLAY_WIDTH tty - 1))
  && fle (num 1) (y p) && fle (y p) (num (DISPLAY_HEIGHT tty - 1)).

(** Position and far corner in [[1, bound - 1]]. *)
Definition in_clamp_range (e : entity_t) : bool :=
  point_in_clamp_range (pos e)
  && point_in_clamp_range (vec2_add prec emax (pos e) (size e)).

(** A coordinate in the half-open range [[1, bound)], or equal to one of
    the two values [constrain] clamps to. *)
Definition in_range_or_clamp (bound : Z) (v : f64) : Prop :=
  v = num 1 \/ v = num (bound - 1)
  \/ (fle (num 1) v = true /\ flt v (num bound) = true).

Definition point_in_range_or_clamp (p : vec2) : Prop :=
  in_range_or_clamp (DISPLAY_WIDTH tty) (x p)
  /\ in_range_or_clamp (DISPLAY_HEIGHT tty) (y p).

(** A point strictly between [1] and the bound on both axes. *)
Definition point_strictly_inside (p : vec2) : Prop :=
  (flt (num 1) (x p) = true /\ flt (x p) (num (DISPLAY_WIDTH tty)) = true)
  /\ (flt (num 1) (y p) = true /\ flt (y p) (num (DISPLAY_HEIGHT tty)) = true).

(** A point in the half-open viewport range: [1 <= x < DISPLAY_WIDTH] and
    [1 <= y < DISPLAY_HEIGHT]. *)
Definition point_in_half_open (p : vec2) : bool :=
  fle (num 1) (x p) && flt (x p) (num (DISPLAY_WIDTH tty))
  && fle (num 1) (y p) && flt (y p) (num (DISPLAY_HEIGHT tty)).

(** The three outcomes of one call to [entity_move], with what the clamp
    yields in each: a coordinate in range or a clamp value. *)
Definition step_outcome_clamped (e : entity_t) : Prop :=
  (collision prec emax tty (new_pos_of prec emax e) = true
   /\ point_in_range_or_clamp (pos (entity_move prec emax tty e)))
  \/ (collision prec emax tty (new_pos_of prec emax e) = false
      /\ collision prec emax tty (new_end_of prec emax e) = true
      /\ pos (entity_move prec emax tty e)
         = vec2_sub prec emax (constrain prec emax tty (new_end_of prec emax e))
             (size e)
      /\ point_in_range_or_clamp
           (constrain prec emax tty (new_end_of prec emax e)))
  \/ (collision prec emax tty (new_pos_of prec emax e) = false
      /\ collision prec emax tty (new_end_of prec emax e) = false
      /\ pos (entity_move prec emax tty e) = new_pos_of prec emax e
      /\ point_strictly_inside (new_pos_of prec emax e)
      /\ point_strictly_inside (new_end_of prec emax e)).

(** The three outcomes of one call to [entity_move], with the bounds each
    one guarantees.  Leading-edge collision: the new position is in
    [[1, bound)].  Trailing-edge collision only: the new position is
    [c - size] for the clamped tentative far corner [c], itself in
    [[1, bound)].  No collision: the new position is the tentative one, and
    it and the tentative far corner are strictly between [1] and the
    bound. *)
Definition step_outcome_bounded (e : entity_t) : Prop :=
  (collision prec emax tty (new_pos_of prec emax e) = true
   /\ point_in_half_open (pos (entity_move prec emax tty e)) = true)
  \/ (collision prec emax tty (new_pos_of prec emax e) = false
      /\ collision prec emax tty (new_end_of prec emax e) = true
      /\ pos (entity_move prec emax tty e)
         = vec2_sub prec emax (constrain prec emax tty (new_end_of prec emax e))
             (size e)
      /\ point_in_half_open
           (constrain prec emax tty (new_end_of prec emax e)) = true)
  \/ (collision prec emax tty (new_pos_of prec emax e) = false
      /\ collision prec emax tty (new_end_of prec emax e) = false
      /\ pos (entity_move prec emax tty e) = new_pos_of prec emax e
      /\ point_strictly_inside (new_pos_of prec emax e)
      /\ point_strictly_inside (new_end_of prec emax e)).

(** Both coordinates of a point satisfy the collision predicate. *)
Definition collides_on_both_axes (p : vec2) : bool :=
  collision_x prec emax tty (x p) && collision_y prec emax tty (y p).

(** The size after a growth step of Resize mode, and the test the
    specification words on it: strictly below half the viewport. *)
Definition grown_size (e : entity_t) : vec2 :=
  mk_vec2 (fadd prec emax (x (size e)) (num 1))
          (fadd prec emax (y (size e)) (num 1)).

Definition size_below_half (s : vec2) : bool :=
  flt (x s) (num (MAX_ENTITY_WIDTH tty))
  && flt (y s) (num (MAX_ENTITY_HEIGHT tty)).

(** The Speed-mode doubling of one component, as the source writes it,
    and the test on a velocity: below the full viewport extent. *)
Definition double_component (v : f64) : f64 :=
  fmul prec emax (fadd prec emax (num (lnot prec emax v)) v) (num 2).

Definition halve_component (v : f64) : f64 := fdiv prec emax v (num 2).

Definition doubled_delta (e : entity_t) : vec2 :=
  mk_vec2 (double_component (x (delta e))) (double_component (y (delta e))).

Definition delta_below_extent (d : vec2) : bool :=
  flt (x d) (num (MAX_ENTITY_DELTA_X tty))
  && flt (y d) (num (MAX_ENTITY_DELTA_Y tty)).

(** A velocity within the speed bounds: strictly between
    [MIN_ENTITY_DELTA] and [MAX_ENTITY_DELTA] on both axes. *)
Definition delta_above_min (d : vec2) : bool :=
  fgt (x d) (num MIN_ENTITY_DELTA_X)
  && fgt (y d) (num MIN_ENTITY_DELTA_Y).

End Predicates.

(** A number of the format: every [long double] value is one. *)
Definition f64_valid (prec emax : Z) (v : f64) : bool := valid_binary prec emax v.

Definition vec2_valid (prec emax : Z) (a : vec2) : bool :=
  f64_valid prec emax (x a) && f64_valid prec emax (y a).

(** The mantissa of a power of two: [2^(prec - 1)]. *)
Definition pow2_mantissa (prec : Z) : positive :=
  Pos.shiftl 1 (Z.to_N (prec - 1)).

(** ** Concrete entities used to exercise the program (x87 format) *)

Definition x87_default : entity_t := DEFAULT_ENTITY_PROPERTIES x87_prec x87_emax.

(** Position (76, 5), size (2, 1), velocity (0.5, 0.5): inside an 80x24
    terminal, one step from its right edge. *)
Definition entity_near_right_edge : entity_t :=
  mk_entity (mk_vec2 (x87_int 76) (x87_int 5))
            (mk_vec2 (x87 1 (-1)) (x87 1 (-1)))
            (mk_vec2 (x87_int 2) (x87_int 1)).

(** Position (1, 20), size (2, 2), velocity (-0.5, 1.5): the leading edge
    hits the left wall while the far corner moves down. *)
Definition entity_leaving_left : entity_t :=
  mk_entity (mk_vec2 (x87_int 1) (x87_int 20))
            (mk_vec2 (x87 (-1) (-1)) (x87 3 (-1)))
            (mk_vec2 (x87_int 2) (x87_int 2)).

(** Position (1, 5), size (78, 1), velocity (0.5, 0): an entity as wide as
    the viewport of an 80x24 terminal. *)
Definition entity_full_width : entity_t :=
  mk_entity (mk_vec2 (x87_int 1) (x87_int 5))
            (mk_vec2 (x87 1 (-1)) (x87_int 0))
            (mk_vec2 (x87_int 78) (x87_int 1)).

(** Position (2, 2), velocity (-1.5, -1.5): the tentative position is
    (0.5, 0.5), beyond the left and the top wall at once. *)
Definition entity_into_top_left : entity_t :=
  mk_entity (mk_vec2 (x87_int 2) (x87_int 2))
            (mk_vec2 (x87 (-3) (-1)) (x87 (-3) (-1)))
            (mk_vec2 (x87_int 2) (x87_int 1)).

(** Position (76, 20), size (2, 2), velocity (1.5, 1.5): the tentative far
    corner is (79.5, 23.5), beyond the right and the bottom wall at once,
    while the tentative position (77.5, 21.5) is inside. *)
Definition entity_into_bottom_right : entity_t :=
  mk_entity (mk_vec2 (x87_int 76) (x87_int 20))
            (mk_vec2 (x87 3 (-1)) (x87 3 (-1)))
            (mk_vec2 (x87_int 2) (x87_int 2)).

(** A terminal of 80 columns by 25 rows: [DISPLAY_HEIGHT = 24], an even
    height. *)
Definition tty_80x25 : tty_ctx_t := mk_tty 25 80.

(** The default entity with size (12, 11). *)
Definition entity_size_12_11 : entity_t :=
  mk_entity (pos x87_default) (delta x87_default)
            (mk_vec2 (x87_int 12) (x87_int 11)).

(** The default entity with velocity (16, 16). *)
Definition entity_delta_16 : entity_t :=
  mk_entity (pos x87_default) (mk_vec2 (x87_int 16) (x87_int 16))
            (size x87_default).

(** The default entity moving up and to the left: velocity
    (-0.5, -0.5). *)
Definition entity_delta_negative : entity_t :=
  mk_entity (pos x87_default) (mk_vec2 (x87 (-1) (-1)) (x87 (-1) (-1)))
            (size x87_default).

(** The entity after the key [c] was read [n] times in mode [command]
    (without the physics steps in between). *)
Definition press (tty : tty_ctx_t) (c : Z) (command : command_state_t)
    (n : nat) (e : entity_t) : entity_t :=
  Nat.iter n
    (fun e' => snd (handle_command x87_prec x87_emax tty c command e')) e.

(** The default entity with velocity (0, 0.5). *)
Definition entity_delta_zero_x : entity_t :=
  mk_entity (pos x87_default) (mk_vec2 (x87_int 0) (x87 1 (-1)))
            (size x87_default).

(** ** The remaining geometry primitives *)

Section Geometry.

Variables prec emax : Z.

(** [vec2_new]: a vector from two [int]s. *)
Definition vec2_new (a b : Z) : vec2 :=
  mk_vec2 (of_int prec emax a) (of_int prec emax b).

(** [vec2_len]: [sqrtl((x * x) + (y * y))]. *)
Definition vec2_len (a : vec2) : f64 :=
  SFsqrt prec emax
    (fadd prec emax (fmul prec emax (x a) (x a)) (fmul prec emax (y a) (y a))).

End Geometry.

(** ** Notions used to state further properties *)

Inductive axis : Type := AxisX | AxisY.

Section Notions.

Variables prec emax : Z.
Variable tty : tty_ctx_t.

(** The axis whose velocity component one call to [entity_move] negates,
    if any: the x axis when the colliding point collides on x, else the
    y axis. *)
Definition reflected_axis (e : entity_t) : option axis :=
  if collision prec emax tty (new_pos_of prec emax e) then
    Some (if collision_x prec emax tty (x (new_pos_of prec emax e))
          then AxisX else AxisY)
  else if collision prec emax tty (new_end_of prec emax e) then
    Some (if collision_x prec emax tty (x (new_end_of prec emax e))
          then AxisX else AxisY)
  else None.

(** [n] consecutive calls to [entity_move]. *)
Definition steps (n : nat) (e : entity_t) : entity_t :=
  Nat.iter n (entity_move prec emax tty) e.

(** The size after a shrink step of Resize mode, and its guard. *)
Definition shrunk_size (e : entity_t) : vec2 :=
  mk_vec2 (fsub prec emax (x (size e)) (of_int prec emax 1))
          (fsub prec emax (y (size e)) (of_int prec emax 1)).

Definition size_above_min (s : vec2) : bool :=
  fgt (x s) (of_int prec emax MIN_ENTITY_WIDTH)
  && fgt (y s) (of_int prec emax MIN_ENTITY_HEIGHT).

(** A key that [handle_command] does not recognise. *)
Definition unrecognised (c : Z) : Prop :=
  c <> key "q" /\ c <> key "n" /\ c <> key "r" /\ c <> key "s"
  /\ c <> key "w".

(** A number that is a zero of either sign. *)
Definition is_zero (v : f64) : bool :=
  match v with S754_zero _ => true | _ => false end.

End Notions.

(** ** The renderer *)

(** The range of [int]. *)
Definition INT_MIN : Z := -2147483648.
Definition INT_MAX : Z := 2147483647.

(** The integral part of a number, toward zero; none for a NaN and the
    infinities. *)
Definition f64_trunc (v : f64) : option Z :=
  match v with
  | S754_zero _ => Some 0
  | S754_finite s m e => Some (cond_Zopp s (Z.shiftl (Zpos m) e))
  | _ => None
  end.

(** Conversion of an [f64] to [int]: the integral part, when it is an
    [int]; the conversion is undefined otherwise. *)
Definition to_int (v : f64) : option Z :=
  match f64_trunc v with
  | Some n => if (INT_MIN <=? n) && (n <=? INT_MAX) then Some n else None
  | None => None
  end.

(** A cell of the terminal, as [move] addresses it: column and row. *)
Definition cell : Type := (Z * Z)%type.

(** [for (int i = start; cond(i); i++) body(i)], collecting what the bodies
    emit.  The loop is undefined when [i++] overflows, and unfinished when
    the fuel runs out. *)
Fixpoint for_loop {A : Type} (fuel : nat) (i : Z) (cond : Z -> bool)
    (body : Z -> option (list A)) : option (list A) :=
  match fuel with
  | O => None
  | S fuel' =>
      if cond i then
        match body i with
        | Some out =>
            if i =? INT_MAX then None
            else
              match for_loop fuel' (i + 1) cond body with
              | Some rest => Some (out ++ rest)
              | None => None
              end
        | None => None
        end
      else Some []
  end.

Section Renderer.

Variables prec emax : Z.
Variable tty_context : tty_ctx_t.

(** [draw_cell(pos, WHITE, ' ')]: the cell [move(pos)] puts the cursor on,
    [(int)pos.x] and [(int)pos.y]; a blank in the fixed colour is written
    there. *)
Definition draw_cell (p : vec2) : option cell :=
  match to_int (y p), to_int (x p) with
  | Some row, Some col => Some (col, row)
  | _, _ => None
  end.

(** [void entity_draw(const entity_t *e)]: the cells drawn, in order. *)
Definition entity_draw (fuel : nat) (e : entity_t) : option (list cell) :=
  match to_int (y (pos e)) with
  | Some y0 =>
      for_loop fuel y0
        (fun j => flt (of_int prec emax j)
                    (fadd prec emax (y (pos e)) (y (size e))))
        (fun j =>
           match to_int (x (pos e)) with
           | Some x0 =>
               for_loop fuel x0
                 (fun i => flt (of_int prec emax i)
                             (fadd prec emax (x (pos e)) (x (size e))))
                 (fun i =>
                    let p :=
                      mk_vec2 (of_int prec emax i) (of_int prec emax j) in
                    if out_of_bounds prec emax tty_context p then Some []
                    else
                      match draw_cell p with
                      | Some c => Some [c]
                      | None => None
                      end)
           | None => None
           end)
  | None => None
  end.

(** [void entity_update(entity_t *e)]: the moved entity and the cells
    drawn for it. *)
Definition entity_update (fuel : nat) (e : entity_t)
    : entity_t * option (list cell) :=
  let e' := entity_move prec emax tty_context e in
  (e', entity_draw fuel e').

(** A cell inside the viewport. *)
Definition cell_in_viewport (c : cell) : Prop :=
  1 <= fst c < DISPLAY_WIDTH tty_context
  /\ 1 <= snd c < DISPLAY_HEIGHT tty_context.

End Renderer.

(** The cells of the rectangle with corner [(x0, y0)], [w] columns and [h]
    rows, row by row. *)
Definition rectangle (x0 y0 : Z) (w h : nat) : list cell :=
  flat_map (fun j => map (fun i => (x0 + Z.of_nat i, y0 + Z.of_nat j)) (seq 0 w))
           (seq 0 h).

(** ** More concrete entities (x87 format) *)

(** Position (2, 5), velocity (-100, 0): fast enough to meet the left wall
    and, one step later, the right wall. *)
Definition entity_fast_left : entity_t :=
  mk_entity (mk_vec2 (x87_int 2) (x87_int 5))
            (mk_vec2 (x87_int (-100)) (x87_int 0))
            (mk_vec2 (x87_int 2) (x87_int 1)).

(** Position (5, 5), size (2, 1), velocity (0, 0). *)
Definition entity_at_rest : entity_t :=
  mk_entity (mk_vec2 (x87_int 5) (x87_int 5))
            (mk_vec2 (x87_int 0) (x87_int 0))
            (mk_vec2 (x87_int 2) (x87_int 1)).

(** Position (3, 4), size (2, 2), the default velocity. *)
Definition entity_whole : entity_t :=
  mk_entity (mk_vec2 (x87_int 3) (x87_int 4)) (delta x87_default)
            (mk_vec2 (x87_int 2) (x87_int 2)).

(** The default entity after its first step in an 80x24 terminal. *)
Definition entity_after_first_step : entity_t :=
  entity_move x87_prec x87_emax tty_80x24 x87_default.

(** A terminal of 2 columns by 24 rows: [DISPLAY_WIDTH = 1], a viewport
    one cell wide. *)
Definition tty_2x24 : tty_ctx_t := mk_tty 24 2.

(** Position (2, 5), velocity (-1, 0): the tentative position is on
    column 1. *)
Definition entity_onto_column_1 : entity_t :=
  mk_entity (mk_vec2 (x87_int 2) (x87_int 5))
            (mk_vec2 (x87_int (-1)) (x87_int 0))
            (mk_vec2 (x87_int 2) (x87_int 1)).

(** A value that is not a NaN and not below zero: a zero, a number above
    zero or plus infinity. *)
Definition not_below_zero (v : f64) : bool :=
  match v with
  | S754_zero _ | S754_infinity false | S754_finite false _ _ => true
  | _ => false
  end.

(** * Properties *)

(** ** The character constants *)

Lemma key_q : key "q" = 113. Proof. reflexivity. Qed.
Lemma key_n : key "n" = 110. Proof. reflexivity. Qed.
Lemma key_r : key "r" = 114. Proof. reflexivity. Qed.
Lemma key_s : key "s" = 115. Proof. reflexivity. Qed.
Lemma key_w : key "w" = 119. Proof. reflexivity. Qed.

Ltac key_tests :=
  rewrite ?key_q, ?key_n, ?key_r, ?key_s, ?key_w in *.

(** ** The command interpreter *)

Section Commands.

Variables prec emax : Z.
Variable tty : tty_ctx_t.

(** A character that is none of the five recognised keys changes
    nothing. *)
Lemma handle_command_other_key c command e :
  c <> key "q" -> c <> key "n" -> c <> key "r" -> c <> key "s" ->
  c <> key "w" ->
  handle_command prec emax tty c command e = (command, e).
Proof.
  intros Hq Hn Hr Hs Hw. unfold handle_command.
  rewrite (proj2 (Z.eqb_neq _ _) Hq), (proj2 (Z.eqb_neq _ _) Hn),
    (proj2 (Z.eqb_neq _ _) Hr), (proj2 (Z.eqb_neq _ _) Hs),
    (proj2 (Z.eqb_neq _ _) Hw).
  destruct command; reflexivity.
Qed.

(** [q] forces [QUIT] from every mode. *)
Lemma handle_command_q command e : handle_command prec emax tty (key "q") command e = (QUIT, e).
Proof. unfold handle_command. rewrite Z.eqb_refl. reflexivity. Qed.

(** [n] forces [NORMAL] from every mode. *)
Lemma handle_command_n command e : handle_command prec emax tty (key "n") command e = (NORMAL, e).
Proof.
  unfold handle_command.
  replace (key "n" =? key "q") with false by reflexivity.
  rewrite Z.eqb_refl. reflexivity.
Qed.

(** C3: for every current mode, [handle_command] on input [n] returns
    [NORMAL] (and leaves the entity as it is): the override is tested
    before the mode is looked at. *)
Theorem handle_command_n_forces_normal command e :
  handle_command prec emax tty (key "n") command e = (NORMAL, e).
Proof. destruct command; apply handle_command_n. Qed.

(** C2, amended: for every input other than [n], the no-input value
    included, [handle_command] called in mode [QUIT] returns [QUIT] and
    leaves the entity as it is. *)
Theorem handle_command_quit_absorbs c e :
  c <> key "n" -> handle_command prec emax tty c QUIT e = (QUIT, e).
Proof.
  intros Hn. unfold handle_command.
  destruct (c =? key "q"); [reflexivity | ].
  rewrite (proj2 (Z.eqb_neq _ _) Hn). reflexivity.
Qed.

(** C8: when [getchar] yields the no-input value (a negative [int]),
    [handle_command] returns the current mode and the entity, position,
    size and velocity, unchanged. *)
Theorem handle_command_no_input c command e :
  c < 0 -> handle_command prec emax tty c command e = (command, e).
Proof.
  intros Hc. apply handle_command_other_key; key_tests; lia.
Qed.

(** From [NORMAL], [r] enters Resize mode and [s] enters Speed mode. *)
Lemma handle_command_normal_r e : handle_command prec emax tty (key "r") NORMAL e = (RESIZE, e).
Proof. reflexivity. Qed.

Lemma handle_command_normal_s e : handle_command prec emax tty (key "s") NORMAL e = (SPEED, e).
Proof. reflexivity. Qed.

(** The loop of [main] stops reading at the first frame that yields
    [QUIT]: [handle_command] is never called in mode [QUIT]. *)
Lemma main_loop_stops_at_quit c rest command ball :
  fst (frame prec emax tty c command ball) = QUIT ->
  main_loop prec emax tty (c :: rest) command ball
  = frame prec emax tty c command ball.
Proof.
  simpl. destruct (frame prec emax tty c command ball) as [m b].
  simpl. intros ->. reflexivity.
Qed.

Lemma main_loop_continues c rest command ball :
  fst (frame prec emax tty c command ball) <> QUIT ->
  main_loop prec emax tty (c :: rest) command ball
  = main_loop prec emax tty rest
      (fst (frame prec emax tty c command ball))
      (snd (frame prec emax tty c command ball)).
Proof.
  simpl. destruct (frame prec emax tty c command ball) as [m b].
  simpl. destruct m; congruence.
Qed.

End Commands.

(** C2, as stated, fails: in mode [QUIT] the input [n] returns [NORMAL]. *)
Lemma handle_command_quit_n_leaves_quit :
  fst (handle_command x87_prec x87_emax tty_80x24 (key "n") QUIT x87_default)
  <> QUIT.
Proof. rewrite handle_command_n. discriminate. Qed.

Lemma handle_command_quit_absorbs_witness :
  key "w" <> key "n"
  /\ handle_command x87_prec x87_emax tty_80x24 (key "w") QUIT x87_default
     = (QUIT, x87_default).
Proof.
  split; [ discriminate | apply handle_command_quit_absorbs; discriminate ].
Defined.

Lemma handle_command_no_input_witness :
  EOF < 0
  /\ handle_command x87_prec x87_emax tty_80x24 EOF SPEED x87_default
     = (SPEED, x87_default).
Proof.
  split; [ reflexivity | apply handle_command_no_input; reflexivity ].
Defined.

(** ** Comparisons *)

Lemma SFcompare_antisym (a b : f64) :
  SFcompare b a = option_map CompOpp (SFcompare a b).
Proof.
  destruct a as [sa | sa | | sa ma ea], b as [sb | sb | | sb mb eb];
    simpl; try reflexivity;
    try (destruct sa; reflexivity); try (destruct sb; reflexivity);
    try (destruct sa, sb; reflexivity).
  change (Pos.compare_cont Eq mb ma) with (mb ?= ma)%positive.
  change (Pos.compare_cont Eq ma mb) with (ma ?= mb)%positive.
  rewrite (Z.compare_antisym ea eb), (Pos.compare_antisym ma mb).
  destruct sa, sb, (ea ?= eb), (ma ?= mb)%positive; reflexivity.
Qed.

Lemma SFcompare_not_nan (a b : f64) :
  is_nan a = false -> is_nan b = false -> exists c, SFcompare a b = Some c.
Proof.
  destruct a, b; simpl; intros Ha Hb; try discriminate; eauto.
Qed.

(** For numbers, [!(a < b)] is [b <= a]. *)
Lemma flt_false_fle (a b : f64) :
  is_nan a = false -> is_nan b = false -> flt a b = false -> fle b a = true.
Proof.
  intros Ha Hb. unfold flt, fle, SFltb, SFleb.
  rewrite (SFcompare_antisym a b).
  destruct (SFcompare_not_nan a b Ha Hb) as [c ->].
  destruct c; simpl; congruence.
Qed.

(** For numbers, [!(a <= b)] is [b < a]. *)
Lemma fle_false_flt (a b : f64) :
  is_nan a = false -> is_nan b = false -> fle a b = false -> flt b a = true.
Proof.
  intros Ha Hb. unfold flt, fle, SFltb, SFleb.
  rewrite (SFcompare_antisym a b).
  destruct (SFcompare_not_nan a b Ha Hb) as [c ->].
  destruct c; simpl; congruence.
Qed.

Lemma fle_not_nan_l (a b : f64) : fle a b = true -> is_nan a = false.
Proof. destruct a, b; simpl; try discriminate; reflexivity. Qed.

(** ** Negation and absolute value *)

Lemma fabs_fneg (v : f64) : fabs (fneg v) = fabs v.
Proof. destruct v; reflexivity. Qed.

Lemma fneg_involutive (v : f64) : fneg (fneg v) = v.
Proof. destruct v; simpl; rewrite ?negb_involutive; reflexivity. Qed.

(** ** Rounding never yields a NaN *)

Section Rounding.
Variables prec emax : Z.

Lemma shr_1_nonneg mrs : 0 <= shr_m mrs -> 0 <= shr_m (shr_1 mrs).
Proof.
  destruct mrs as [m r s]. simpl.
  destruct m as [ | [p | p | ] | p ]; simpl; lia.
Qed.

Lemma iter_pos_shr_1_nonneg p : forall mrs,
  0 <= shr_m mrs -> 0 <= shr_m (iter_pos shr_1 p mrs).
Proof.
  induction p as [p IH | p IH | ]; intros mrs H; simpl.
  - apply IH, IH, shr_1_nonneg, H.
  - apply IH, IH, H.
  - apply shr_1_nonneg, H.
Qed.

Lemma shr_nonneg mrs e n : 0 <= shr_m mrs -> 0 <= shr_m (fst (shr mrs e n)).
Proof.
  intros H. destruct n; simpl; auto using iter_pos_shr_1_nonneg.
Qed.

Lemma shr_fexp_nonneg m e l :
  0 <= m -> 0 <= shr_m (fst (shr_fexp prec emax m e l)).
Proof.
  intros H. unfold shr_fexp. apply shr_nonneg.
  destruct l as [ | [ | | ] ]; exact H.
Qed.

Lemma round_nearest_even_nonneg m l : 0 <= m -> 0 <= round_nearest_even m l.
Proof.
  intros H. destruct l as [ | [ | | ] ]; simpl; try lia.
  destruct (Z.even m); lia.
Qed.

Lemma binary_round_aux_not_nan sx mx ex lx :
  0 <= mx -> is_nan (binary_round_aux prec emax sx mx ex lx) = false.
Proof.
  intros H. unfold binary_round_aux.
  pose proof (shr_fexp_nonneg mx ex lx H) as H1.
  destruct (shr_fexp prec emax mx ex lx) as [mrs' e']. simpl in H1.
  pose proof (shr_fexp_nonneg _ e' loc_Exact
                (round_nearest_even_nonneg _ (loc_of_shr_record mrs') H1)) as H2.
  destruct (shr_fexp prec emax _ e' loc_Exact) as [mrs'' e'']. simpl in H2.
  destruct (shr_m mrs'') as [ | m | m ]; simpl; try reflexivity; try lia.
  destruct (e'' <=? emax - prec); reflexivity.
Qed.

Lemma binary_normalize_not_nan m e sz :
  is_nan (binary_normalize prec emax m e sz) = false.
Proof.
  destruct m as [ | m | m ]; simpl; try reflexivity;
    unfold binary_round;
    destruct (shl_align m e _) as [mz ez];
    apply binary_round_aux_not_nan; lia.
Qed.

Lemma fadd_not_nan a b :
  is_nan a = false -> is_finite b = true -> is_nan (fadd prec emax a b) = false.
Proof.
  unfold fadd.
  destruct a as [sa | sa | | sa ma ea], b as [sb | sb | | sb mb eb];
    simpl; intros Ha Hb; try discriminate; try reflexivity.
  - destruct sa, sb; reflexivity.
  - apply binary_normalize_not_nan.
Qed.

Lemma fadd_finite_not_nan a b :
  is_finite a = true -> is_finite b = true -> is_nan (fadd prec emax a b) = false.
Proof.
  intros Ha Hb. apply fadd_not_nan; [ | exact Hb ].
  destruct a; simpl in *; congruence.
Qed.
End Rounding.

(** ** The physics step *)

Section Physics.

Variables prec emax : Z.
Variable tty : tty_ctx_t.

(** The velocity after a step, by the pass that fired. *)
Lemma entity_move_delta e :
  delta (entity_move prec emax tty e) =
  if collision prec emax tty (new_pos_of prec emax e) then
    reflect prec emax tty (new_pos_of prec emax e) (delta e)
  else if collision prec emax tty (new_end_of prec emax e) then
    reflect prec emax tty (new_end_of prec emax e) (delta e)
  else delta e.
Proof.
  unfold entity_move, new_pos_of, new_end_of.
  destruct (collision prec emax tty (vec2_add prec emax (pos e) (delta e)));
    [ reflexivity | ].
  destruct (collision prec emax tty
              (vec2_add prec emax (vec2_add prec emax (pos e) (size e)) (delta e)));
    reflexivity.
Qed.

(** The position after a step, by the pass that fired. *)
Lemma entity_move_pos e :
  pos (entity_move prec emax tty e) =
  if collision prec emax tty (new_pos_of prec emax e) then
    constrain prec emax tty (new_pos_of prec emax e)
  else if collision prec emax tty (new_end_of prec emax e) then
    vec2_sub prec emax (constrain prec emax tty (new_end_of prec emax e)) (size e)
  else new_pos_of prec emax e.
Proof.
  unfold entity_move, new_pos_of, new_end_of.
  destruct (collision prec emax tty (vec2_add prec emax (pos e) (delta e)));
    [ reflexivity | ].
  destruct (collision prec emax tty
              (vec2_add prec emax (vec2_add prec emax (pos e) (size e)) (delta e)));
    reflexivity.
Qed.

(** A step never changes the size. *)
Lemma entity_move_size e : size (entity_move prec emax tty e) = size e.
Proof.
  unfold entity_move.
  destruct (collision prec emax tty (vec2_add prec emax (pos e) (delta e)));
    [ reflexivity | ].
  destruct (collision prec emax tty
              (vec2_add prec emax (vec2_add prec emax (pos e) (size e)) (delta e)));
    reflexivity.
Qed.

(** A reflection negates exactly one component. *)
Lemma reflect_cases p d :
  reflect prec emax tty p d = mk_vec2 (fneg (x d)) (y d)
  \/ reflect prec emax tty p d = mk_vec2 (x d) (fneg (y d)).
Proof.
  unfold reflect. destruct (collision_x prec emax tty (x p)); auto.
Qed.

Lemma reflect_x_first p d :
  collision_x prec emax tty (x p) = true ->
  reflect prec emax tty p d = mk_vec2 (fneg (x d)) (y d).
Proof. unfold reflect. intros ->. reflexivity. Qed.

Lemma collides_on_both_axes_collision p :
  collides_on_both_axes prec emax tty p = true ->
  collision_x prec emax tty (x p) = true /\ collision prec emax tty p = true.
Proof.
  unfold collides_on_both_axes, collision.
  intros H. apply andb_true_iff in H. destruct H as [Hx Hy].
  rewrite Hx. auto.
Qed.

(** C9: when both coordinates of the tentative position satisfy the
    collision predicate, or, the leading-edge pass not firing, both
    coordinates of the tentative far corner do, [entity_move] negates the x
    component of the velocity and leaves the y component as it was: x is
    tested before y in both passes, and one component is negated. *)
Theorem entity_move_tie_break e :
  collides_on_both_axes prec emax tty (new_pos_of prec emax e) = true
  \/ (collision prec emax tty (new_pos_of prec emax e) = false
      /\ collides_on_both_axes prec emax tty (new_end_of prec emax e) = true) ->
  delta (entity_move prec emax tty e)
  = mk_vec2 (fneg (x (delta e))) (y (delta e)).
Proof.
  intros [Hlead | [Hfree Htrail]]; rewrite entity_move_delta.
  - apply collides_on_both_axes_collision in Hlead.
    destruct Hlead as [Hx Hc]. rewrite Hc. now apply reflect_x_first.
  - apply collides_on_both_axes_collision in Htrail.
    destruct Htrail as [Hx Hc]. rewrite Hfree, Hc. now apply reflect_x_first.
Qed.

(** C10: [entity_move] keeps the magnitude of both velocity components;
    the velocity is unchanged or has the sign of exactly one component
    flipped. *)
Theorem entity_move_preserves_speed e :
  fabs (x (delta (entity_move prec emax tty e))) = fabs (x (delta e))
  /\ fabs (y (delta (entity_move prec emax tty e))) = fabs (y (delta e))
  /\ (delta (entity_move prec emax tty e) = delta e
      \/ delta (entity_move prec emax tty e)
         = mk_vec2 (fneg (x (delta e))) (y (delta e))
      \/ delta (entity_move prec emax tty e)
         = mk_vec2 (x (delta e)) (fneg (y (delta e)))).
Proof.
  rewrite entity_move_delta.
  destruct (collision prec emax tty (new_pos_of prec emax e)).
  - destruct (reflect_cases (new_pos_of prec emax e) (delta e)) as [-> | ->];
      simpl; rewrite fabs_fneg; auto.
  - destruct (collision prec emax tty (new_end_of prec emax e)).
    + destruct (reflect_cases (new_end_of prec emax e) (delta e)) as [-> | ->];
        simpl; rewrite fabs_fneg; auto.
    + auto.
Qed.

End Physics.

Lemma entity_move_tie_break_witness :
  (collides_on_both_axes x87_prec x87_emax tty_80x24
     (new_pos_of x87_prec x87_emax entity_into_top_left) = true
   \/ (collision x87_prec x87_emax tty_80x24
         (new_pos_of x87_prec x87_emax entity_into_top_left) = false
       /\ collides_on_both_axes x87_prec x87_emax tty_80x24
            (new_end_of x87_prec x87_emax entity_into_top_left) = true))
  /\ delta (entity_move x87_prec x87_emax tty_80x24 entity_into_top_left)
     = mk_vec2 (fneg (x (delta entity_into_top_left)))
               (y (delta entity_into_top_left)).
Proof.
  split.
  - left. vm_compute. reflexivity.
  - apply entity_move_tie_break. left. vm_compute. reflexivity.
Defined.

(** The trailing-edge pass breaks the tie the same way. *)
Example entity_move_tie_break_trailing :
  collision x87_prec x87_emax tty_80x24
    (new_pos_of x87_prec x87_emax entity_into_bottom_right) = false
  /\ collides_on_both_axes x87_prec x87_emax tty_80x24
       (new_end_of x87_prec x87_emax entity_into_bottom_right) = true
  /\ delta (entity_move x87_prec x87_emax tty_80x24 entity_into_bottom_right)
     = mk_vec2 (x87 (-3) (-1)) (x87 3 (-1)).
Proof. vm_compute. auto. Qed.

(** ** Shifts and digits *)

Lemma Zpos_iter_xO m k : Zpos (Pos.iter xO m k) = Zpos m * 2 ^ Zpos k.
Proof.
  induction k as [ | k IH ] using Pos.peano_ind.
  - simpl. lia.
  - rewrite Pos.iter_succ, Pos2Z.inj_xO, IH, Pos2Z.inj_succ, Z.pow_succ_r by lia.
    ring.
Qed.

Lemma Zpos_shiftl m (k : N) : Zpos (Pos.shiftl m k) = Zpos m * 2 ^ Z.of_N k.
Proof.
  destruct k as [ | k ]; simpl.
  - lia.
  - apply Zpos_iter_xO.
Qed.

Lemma digits2_pos_iter_xO m k :
  Zpos (digits2_pos (Pos.iter xO m k)) = Zpos (digits2_pos m) + Zpos k.
Proof.
  induction k as [ | k IH ] using Pos.peano_ind.
  - simpl. lia.
  - rewrite Pos.iter_succ. simpl digits2_pos.
    rewrite Pos2Z.inj_succ, IH. lia.
Qed.

Lemma digits2_pos_shiftl m (k : N) :
  Zpos (digits2_pos (Pos.shiftl m k)) = Zpos (digits2_pos m) + Z.of_N k.
Proof.
  destruct k as [ | k ]; simpl.
  - lia.
  - apply digits2_pos_iter_xO.
Qed.

Lemma iter_pos_iter {A : Type} (f : A -> A) p :
  forall a, iter_pos f p a = Pos.iter f a p.
Proof.
  induction p as [ p IH | p IH | ]; intros a; simpl.
  - rewrite !IH, !Pos.iter_swap. reflexivity.
  - rewrite !IH. reflexivity.
  - reflexivity.
Qed.

Lemma iter_shr_1_exact m k :
  iter_pos shr_1 k (Build_shr_record (Zpos (Pos.iter xO m k)) false false)
  = Build_shr_record (Zpos m) false false.
Proof.
  rewrite iter_pos_iter.
  induction k as [ | k IH ] using Pos.peano_ind.
  - reflexivity.
  - rewrite Pos.iter_succ_r, Pos.iter_succ. simpl shr_1. exact IH.
Qed.

(** ** Exact operations of the format *)

Section Exact.

Variables prec emax : Z.

Lemma fexp_eq e : fexp prec emax e = Z.max (e - prec) (3 - emax - prec).
Proof. reflexivity. Qed.

Lemma canonical_mantissa_eq m e :
  canonical_mantissa prec emax m e = true ->
  fexp prec emax (Zpos (digits2_pos m) + e) = e.
Proof. unfold canonical_mantissa. intros H. apply Z.eqb_eq, H. Qed.

Lemma shr_fexp_canonical m e :
  canonical_mantissa prec emax m e = true ->
  shr_fexp prec emax (Zpos m) e loc_Exact
  = (Build_shr_record (Zpos m) false false, e).
Proof.
  intros H. unfold shr_fexp.
  change (Zdigits2 (Zpos m)) with (Zpos (digits2_pos m)).
  rewrite (canonical_mantissa_eq m e H), Z.sub_diag. reflexivity.
Qed.

Lemma shr_fexp_shifted m e (k : N) :
  canonical_mantissa prec emax m e = true ->
  shr_fexp prec emax (Zpos (Pos.shiftl m k)) (e - Z.of_N k) loc_Exact
  = (Build_shr_record (Zpos m) false false, e).
Proof.
  intros H. destruct k as [ | k ].
  - simpl Z.of_N. rewrite Z.sub_0_r. simpl Pos.shiftl.
    now apply shr_fexp_canonical.
  - unfold shr_fexp.
    change (Zdigits2 (Zpos (Pos.shiftl m (Npos k))))
      with (Zpos (digits2_pos (Pos.shiftl m (Npos k)))).
    rewrite digits2_pos_shiftl.
    replace (Zpos (digits2_pos m) + Z.of_N (Npos k) + (e - Z.of_N (Npos k)))
      with (Zpos (digits2_pos m) + e) by lia.
    rewrite (canonical_mantissa_eq m e H).
    replace (e - (e - Z.of_N (Npos k))) with (Zpos k) by (simpl; lia).
    simpl. rewrite iter_shr_1_exact. f_equal. lia.
Qed.

(** Rounding a number that the format holds exactly returns it. *)
Lemma binary_round_aux_exact s m e (k : N) :
  canonical_mantissa prec emax m e = true ->
  binary_round_aux prec emax s (Zpos (Pos.shiftl m k)) (e - Z.of_N k) loc_Exact
  = if e <=? emax - prec then S754_finite s m e else S754_infinity s.
Proof.
  intros H. unfold binary_round_aux.
  rewrite (shr_fexp_shifted m e k H). simpl.
  rewrite (shr_fexp_canonical m e H). reflexivity.
Qed.

Lemma binary_round_aux_canonical s m e :
  canonical_mantissa prec emax m e = true ->
  binary_round_aux prec emax s (Zpos m) e loc_Exact
  = if e <=? emax - prec then S754_finite s m e else S754_infinity s.
Proof.
  intros H. pose proof (binary_round_aux_exact s m e 0%N H) as R.
  simpl in R. rewrite Z.sub_0_r in R. exact R.
Qed.

Lemma shl_align_le m e e' :
  e' <= e -> shl_align m e e' = (Pos.shiftl m (Z.to_N (e - e')), e').
Proof.
  intros H. unfold shl_align.
  destruct (e' - e) as [ | d | d ] eqn:E.
  - replace (e - e') with 0 by lia. simpl. f_equal. lia.
  - lia.
  - replace (e - e') with (Zpos d) by lia. reflexivity.
Qed.

Hypothesis Hprec : 53 <= prec.
Hypothesis Hemax : 1024 <= emax.

(** An integer of at most [prec] bits (and at most [emax] bits) converts
    exactly: the mantissa is the integer shifted to [prec] bits. *)
Lemma binary_round_int s n :
  Zpos (digits2_pos n) <= prec -> Zpos (digits2_pos n) <= emax ->
  binary_round prec emax s n 0
  = S754_finite s
      (Pos.shiftl n (Z.to_N (prec - Zpos (digits2_pos n))))
      (Zpos (digits2_pos n) - prec).
Proof.
  intros Hd He. unfold binary_round.
  rewrite Z.add_0_r.
  assert (Hf : fexp prec emax (Zpos (digits2_pos n))
               = Zpos (digits2_pos n) - prec)
    by (rewrite fexp_eq; lia).
  rewrite Hf, shl_align_le by lia.
  replace (0 - (Zpos (digits2_pos n) - prec))
    with (prec - Zpos (digits2_pos n)) by lia.
  rewrite binary_round_aux_canonical.
  - destruct (Z.leb_spec (Zpos (digits2_pos n) - prec) (emax - prec));
      [ reflexivity | lia ].
  - unfold canonical_mantissa. apply Z.eqb_eq.
    rewrite digits2_pos_shiftl, Z2N.id by lia.
    replace (Zpos (digits2_pos n) + (prec - Zpos (digits2_pos n))
             + (Zpos (digits2_pos n) - prec))
      with (Zpos (digits2_pos n)) by lia.
    exact Hf.
Qed.

Lemma of_int_pos n :
  Zpos (digits2_pos n) <= prec -> Zpos (digits2_pos n) <= emax ->
  of_int prec emax (Zpos n)
  = S754_finite false
      (Pos.shiftl n (Z.to_N (prec - Zpos (digits2_pos n))))
      (Zpos (digits2_pos n) - prec).
Proof. apply binary_round_int. Qed.

Lemma of_int_neg n :
  Zpos (digits2_pos n) <= prec -> Zpos (digits2_pos n) <= emax ->
  of_int prec emax (Zneg n)
  = S754_finite true
      (Pos.shiftl n (Z.to_N (prec - Zpos (digits2_pos n))))
      (Zpos (digits2_pos n) - prec).
Proof. apply binary_round_int. Qed.

Lemma of_int_1 :
  of_int prec emax 1 = S754_finite false (pow2_mantissa prec) (1 - prec).
Proof.
  rewrite of_int_pos by (simpl; lia). reflexivity.
Qed.

Lemma of_int_2 :
  of_int prec emax 2 = S754_finite false (pow2_mantissa prec) (2 - prec).
Proof.
  rewrite of_int_pos by (simpl; lia). simpl digits2_pos. f_equal.
  apply Pos2Z.inj. unfold pow2_mantissa.
  rewrite !Zpos_shiftl, !Z2N.id by lia.
  replace (prec - 1) with (Z.succ (prec - 2)) by lia.
  rewrite Z.pow_succ_r by lia. lia.
Qed.

Lemma of_int_0 : of_int prec emax 0 = S754_zero false.
Proof. reflexivity. Qed.

Lemma digits2_pow2_mantissa : Zpos (digits2_pos (pow2_mantissa prec)) = prec.
Proof.
  unfold pow2_mantissa. rewrite digits2_pos_shiftl, Z2N.id by lia.
  change (digits2_pos 1) with 1%positive. lia.
Qed.

Lemma Zpos_pow2_mantissa : Zpos (pow2_mantissa prec) = 2 ^ (prec - 1).
Proof.
  unfold pow2_mantissa. rewrite Zpos_shiftl, Z2N.id by lia. lia.
Qed.

(** The two shapes of a number of the format: [prec] significant bits, or
    fewer at the least exponent. *)
Lemma bounded_cases m e :
  bounded prec emax m e = true ->
  e <= emax - prec
  /\ ((Zpos (digits2_pos m) = prec /\ 3 - emax - prec <= e)
      \/ (Zpos (digits2_pos m) < prec /\ e = 3 - emax - prec)).
Proof.
  unfold bounded. intros H. apply andb_true_iff in H. destruct H as [Hc He].
  apply canonical_mantissa_eq in Hc. rewrite fexp_eq in Hc.
  apply Z.leb_le in He. split; [ exact He | lia ].
Qed.

(** Doubling is exact: the exponent grows by one, or, below the normal
    range, the mantissa doubles. *)
Lemma fmul_two s m e :
  bounded prec emax m e = true ->
  fmul prec emax (S754_finite s m e) (of_int prec emax 2)
  = if Zpos (digits2_pos m) =? prec then
      if e + 1 <=? emax - prec then S754_finite s m (e + 1)
      else S754_infinity s
    else S754_finite s (m~0) e.
Proof.
  intros Hb. destruct (bounded_cases m e Hb) as [He [[Hd Hmin] | [Hd Hmin]]].
  - rewrite (proj2 (Z.eqb_eq _ _) Hd), of_int_2.
    unfold fmul, SFmul. rewrite xorb_false_r.
    replace (m * pow2_mantissa prec)%positive
      with (Pos.shiftl m (Z.to_N (prec - 1))).
    2:{ apply Pos2Z.inj.
        rewrite Pos2Z.inj_mul, Zpos_pow2_mantissa, Zpos_shiftl, Z2N.id by lia.
        reflexivity. }
    replace (e + (2 - prec)) with (e + 1 - Z.of_N (Z.to_N (prec - 1)))
      by (rewrite Z2N.id; lia).
    apply binary_round_aux_exact.
    unfold canonical_mantissa. apply Z.eqb_eq. rewrite fexp_eq. lia.
  - rewrite (proj2 (Z.eqb_neq _ _) (Z.lt_neq _ _ Hd)), of_int_2.
    unfold fmul, SFmul. rewrite xorb_false_r.
    replace (m * pow2_mantissa prec)%positive
      with (Pos.shiftl (m~0) (Z.to_N (prec - 2))).
    2:{ apply Pos2Z.inj.
        rewrite Pos2Z.inj_mul, Zpos_pow2_mantissa, Zpos_shiftl, Z2N.id by lia.
        replace (prec - 1) with (Z.succ (prec - 2)) by lia.
        rewrite Z.pow_succ_r by lia. lia. }
    replace (e + (2 - prec)) with (e - Z.of_N (Z.to_N (prec - 2)))
      by (rewrite Z2N.id; lia).
    rewrite binary_round_aux_exact.
    + destruct (Z.leb_spec e (emax - prec)); [ reflexivity | lia ].
    + unfold canonical_mantissa. apply Z.eqb_eq. rewrite fexp_eq.
      simpl digits2_pos. rewrite Pos2Z.inj_succ. lia.
Qed.

Lemma div_eucl_exact q b : 0 < b -> Z.div_eucl (q * b) b = (q, 0).
Proof.
  intros Hb.
  assert (Hq : (q * b) / b = q) by (apply Z.div_mul; lia).
  assert (Hr : (q * b) mod b = 0) by (apply Z.mod_mul; lia).
  unfold Z.div in Hq. unfold Z.modulo in Hr.
  destruct (Z.div_eucl (q * b) b) as [q' r']. congruence.
Qed.

Lemma new_location_exact n : new_location n 0 = loc_Exact.
Proof. unfold new_location. destruct (Z.even n); reflexivity. Qed.

Lemma shiftl_match a s :
  0 <= s ->
  match s with
  | Zpos _ => Z.shiftl a s
  | Z0 => a
  | Zneg _ => 0
  end = a * 2 ^ s.
Proof.
  intros Hs. destruct s as [ | p | p ].
  - simpl. lia.
  - apply Z.shiftl_mul_pow2. lia.
  - lia.
Qed.

(** The quotient by two, when the scaled dividend is a multiple of the
    mantissa of two. *)
Lemma SFdiv_core_two m e q e' :
  e' = Z.min (fexp prec emax (Zpos (digits2_pos m) + e - 2)) (e + prec - 2) ->
  Zpos m * 2 ^ (e + prec - 2 - e') = q * 2 ^ (prec - 1) ->
  SFdiv_core_binary prec emax (Zpos m) e (Zpos (pow2_mantissa prec)) (2 - prec)
  = (q, e', loc_Exact).
Proof.
  intros He' Hq. unfold SFdiv_core_binary.
  change (Zdigits2 (Zpos m)) with (Zpos (digits2_pos m)).
  change (Zdigits2 (Zpos (pow2_mantissa prec)))
    with (Zpos (digits2_pos (pow2_mantissa prec))).
  rewrite digits2_pow2_mantissa.
  replace (Zpos (digits2_pos m) + e - (prec + (2 - prec)))
    with (Zpos (digits2_pos m) + e - 2) by lia.
  replace (e - (2 - prec)) with (e + prec - 2) by lia.
  rewrite <- He'.
  rewrite shiftl_match by lia.
  rewrite Hq, Zpos_pow2_mantissa, div_eucl_exact by (apply Z.pow_pos_nonneg; lia).
  rewrite new_location_exact. reflexivity.
Qed.

(** Halving undoes doubling, in the normal range... *)
Lemma fdiv_two_normal s m e :
  bounded prec emax m e = true -> Zpos (digits2_pos m) = prec ->
  fdiv prec emax (S754_finite s m (e + 1)) (of_int prec emax 2)
  = S754_finite s m e.
Proof.
  intros Hb Hd. destruct (bounded_cases m e Hb) as [He [[_ Hmin] | [Hlt _]]];
    [ | lia ].
  assert (Hc : canonical_mantissa prec emax m e = true).
  { unfold canonical_mantissa. apply Z.eqb_eq. rewrite fexp_eq. lia. }
  rewrite of_int_2. unfold fdiv, SFdiv. rewrite xorb_false_r.
  destruct (Z.eq_dec e (3 - emax - prec)) as [Hemin | Hemin].
  - rewrite (SFdiv_core_two m (e + 1) (Zpos m) e).
    + rewrite binary_round_aux_canonical by exact Hc.
      destruct (Z.leb_spec e (emax - prec)); [ reflexivity | lia ].
    + rewrite fexp_eq. lia.
    + replace (e + 1 + prec - 2 - e) with (prec - 1) by lia. reflexivity.
  - rewrite (SFdiv_core_two m (e + 1) (Zpos (m~0)) (e - 1)).
    + pose proof (binary_round_aux_exact s m e 1%N Hc) as R.
      simpl in R. rewrite R.
      destruct (Z.leb_spec e (emax - prec)); [ reflexivity | lia ].
    + rewrite fexp_eq. lia.
    + replace (e + 1 + prec - 2 - (e - 1)) with (Z.succ (prec - 1)) by lia.
      rewrite Z.pow_succ_r by lia. lia.
Qed.

(** ... and below it. *)
Lemma fdiv_two_subnormal s m e :
  bounded prec emax m e = true -> Zpos (digits2_pos m) < prec ->
  fdiv prec emax (S754_finite s (m~0) e) (of_int prec emax 2)
  = S754_finite s m e.
Proof.
  intros Hb Hd. destruct (bounded_cases m e Hb) as [He [[Heq _] | [_ Hmin]]];
    [ lia | ].
  assert (Hc : canonical_mantissa prec emax m e = true).
  { unfold canonical_mantissa. apply Z.eqb_eq. rewrite fexp_eq. lia. }
  rewrite of_int_2. unfold fdiv, SFdiv. rewrite xorb_false_r.
  rewrite (SFdiv_core_two (m~0) e (Zpos m) e).
  - rewrite binary_round_aux_canonical by exact Hc.
    destruct (Z.leb_spec e (emax - prec)); [ reflexivity | lia ].
  - rewrite fexp_eq. simpl digits2_pos. rewrite Pos2Z.inj_succ. lia.
  - replace (e + prec - 2 - e) with (prec - 2) by lia.
    replace (prec - 1) with (Z.succ (prec - 2)) by lia.
    rewrite Z.pow_succ_r by lia. lia.
Qed.

(** [n] has at least [2^(digits - 1)] as value. *)
Lemma digits2_pos_lower n : 2 ^ (Zpos (digits2_pos n) - 1) <= Zpos n.
Proof.
  induction n as [ n IH | n IH | ]; simpl digits2_pos.
  - rewrite Pos2Z.inj_succ.
    replace (Z.succ (Zpos (digits2_pos n)) - 1)
      with (Z.succ (Zpos (digits2_pos n) - 1)) by lia.
    rewrite Z.pow_succ_r by lia. lia.
  - rewrite Pos2Z.inj_succ.
    replace (Z.succ (Zpos (digits2_pos n)) - 1)
      with (Z.succ (Zpos (digits2_pos n) - 1)) by lia.
    rewrite Z.pow_succ_r by lia. lia.
  - simpl. lia.
Qed.

Lemma digits2_pos_ushort n : Zpos n <= 65535 -> Zpos (digits2_pos n) <= 16.
Proof.
  intros Hn. pose proof (digits2_pos_lower n) as Hl.
  destruct (Z.le_gt_cases (Zpos (digits2_pos n)) 16) as [ H | H ];
    [ exact H | ].
  assert (2 ^ 16 <= 2 ^ (Zpos (digits2_pos n) - 1))
    by (apply Z.pow_le_mono_r; lia).
  change (2 ^ 16) with 65536 in *. lia.
Qed.

(** A positive number below a viewport bound has a small exponent, so
    doubling it cannot overflow. *)
Lemma below_bound_exponent m e bound :
  -1 <= bound <= 65535 ->
  flt (S754_finite false m e) (of_int prec emax bound) = true ->
  e <= 16 - prec.
Proof.
  intros Hb. destruct bound as [ | n | n ].
  - rewrite of_int_0. discriminate.
  - pose proof (digits2_pos_ushort n ltac:(lia)) as Hd.
    rewrite of_int_pos by lia.
    unfold flt, SFltb, SFcompare.
    destruct (Z.compare_spec e (Zpos (digits2_pos n) - prec));
      try lia; discriminate.
  - assert (n = 1%positive) by lia. subst n.
    rewrite of_int_neg by (simpl; lia). discriminate.
Qed.

(** A number above zero is a positive finite number or plus infinity. *)
Lemma above_zero_positive v :
  fgt v (of_int prec emax 0) = true ->
  (exists m e, v = S754_finite false m e) \/ v = S754_infinity false.
Proof.
  rewrite of_int_0.
  destruct v as [ s | s | | s m e ]; try discriminate.
  - destruct s; [ discriminate | auto ].
  - destruct s; [ discriminate | eauto ].
Qed.

Lemma double_component_nonzero v :
  SFeqb v (S754_zero false) = false ->
  double_component prec emax v = fmul prec emax v (of_int prec emax 2).
Proof.
  intros Hv. unfold double_component, lnot. rewrite of_int_0, Hv, of_int_0.
  destruct v as [ s | s | | s m e ]; try reflexivity.
  discriminate Hv.
Qed.

Lemma bounded_pow2_mantissa e :
  3 - emax - prec <= e <= emax - prec ->
  bounded prec emax (pow2_mantissa prec) e = true.
Proof.
  intros He. unfold bounded, canonical_mantissa.
  rewrite digits2_pow2_mantissa, fexp_eq.
  apply andb_true_iff. split; [ apply Z.eqb_eq | apply Z.leb_le ]; lia.
Qed.

(** A zero component, of either sign, is doubled to 2. *)
Lemma double_component_zero s :
  double_component prec emax (S754_zero s) = of_int prec emax 2.
Proof.
  unfold double_component, lnot. rewrite of_int_0.
  change (SFeqb (S754_zero s) (S754_zero false)) with true. cbv iota.
  rewrite of_int_1. change (fadd prec emax (S754_finite false (pow2_mantissa prec) (1 - prec)) (S754_zero s))
    with (S754_finite false (pow2_mantissa prec) (1 - prec)).
  rewrite fmul_two by (apply bounded_pow2_mantissa; lia).
  rewrite digits2_pow2_mantissa, Z.eqb_refl, of_int_2.
  destruct (Z.leb_spec (1 - prec + 1) (emax - prec)); [ | lia ].
  f_equal. lia.
Qed.

(** Halving undoes doubling for every positive number of the format below
    a viewport bound. *)
Lemma halve_double_component v bound :
  -1 <= bound <= 65535 ->
  f64_valid prec emax v = true ->
  fgt v (of_int prec emax 0) = true ->
  flt v (of_int prec emax bound) = true ->
  halve_component prec emax (double_component prec emax v) = v
  /\ fgt (double_component prec emax v) (of_int prec emax 0) = true.
Proof.
  intros Hb Hv Hpos Hlt.
  destruct (above_zero_positive v Hpos) as [[m [e ->]] | ->].
  - pose proof (below_bound_exponent m e bound Hb Hlt) as He.
    rewrite double_component_nonzero by reflexivity.
    unfold halve_component. simpl in Hv.
    destruct (bounded_cases m e Hv) as [_ [[Hd _] | [Hd _]]].
    + rewrite fmul_two, (proj2 (Z.eqb_eq _ _) Hd) by exact Hv.
      destruct (Z.leb_spec (e + 1) (emax - prec)); [ | lia ].
      rewrite fdiv_two_normal by assumption. split; reflexivity.
    + rewrite fmul_two, (proj2 (Z.eqb_neq _ _) (Z.lt_neq _ _ Hd)) by exact Hv.
      rewrite fdiv_two_subnormal by assumption. split; reflexivity.
  - destruct bound as [ | n | n ].
    + discriminate Hlt.
    + pose proof (digits2_pos_ushort n ltac:(lia)).
      rewrite of_int_pos in Hlt by lia. discriminate Hlt.
    + assert (n = 1%positive) by lia. subst n.
      rewrite of_int_neg in Hlt by (simpl; lia). discriminate Hlt.
Qed.

Lemma digits2_pos_upper n : Zpos n < 2 ^ Zpos (digits2_pos n).
Proof.
  induction n as [ n IH | n IH | ]; simpl digits2_pos.
  - rewrite Pos2Z.inj_succ, Z.pow_succ_r by lia. lia.
  - rewrite Pos2Z.inj_succ, Z.pow_succ_r by lia. lia.
  - simpl. lia.
Qed.

Lemma digits2_pos_mono a b :
  Zpos a <= Zpos b -> Zpos (digits2_pos a) <= Zpos (digits2_pos b).
Proof.
  intros Hab.
  destruct (Z.le_gt_cases (Zpos (digits2_pos a)) (Zpos (digits2_pos b)))
    as [ H | H ]; [ exact H | ].
  pose proof (digits2_pos_lower a) as Ha.
  pose proof (digits2_pos_upper b) as Hb.
  assert (2 ^ Zpos (digits2_pos b) <= 2 ^ (Zpos (digits2_pos a) - 1))
    by (apply Z.pow_le_mono_r; lia).
  lia.
Qed.

(** The conversion of small positive integers keeps their order. *)
Lemma of_int_compare a b :
  Zpos a <= 65535 -> Zpos b <= 65535 ->
  SFcompare (of_int prec emax (Zpos a)) (of_int prec emax (Zpos b))
  = Some (Zpos a ?= Zpos b).
Proof.
  intros Ha Hb.
  pose proof (digits2_pos_ushort a Ha) as Hda.
  pose proof (digits2_pos_ushort b Hb) as Hdb.
  rewrite !of_int_pos by lia.
  unfold SFcompare. f_equal.
  destruct (Z.compare_spec (Zpos (digits2_pos a) - prec)
              (Zpos (digits2_pos b) - prec)) as [ E | E | E ].
  - assert (Ed : digits2_pos a = digits2_pos b) by lia. rewrite Ed.
    change (Pos.compare_cont Eq ?p ?q) with (p ?= q)%positive.
    rewrite (Pos2Z.inj_compare (Pos.shiftl a _) (Pos.shiftl b _)).
    rewrite !Zpos_shiftl.
    symmetry. apply Zmult_compare_compat_r.
    apply Z.lt_gt, Z.pow_pos_nonneg; lia.
  - symmetry. apply Z.compare_lt_iff.
    destruct (Z.lt_ge_cases (Zpos a) (Zpos b)) as [ H | H ]; [ exact H | ].
    pose proof (digits2_pos_mono b a ltac:(lia)). lia.
  - symmetry. apply Z.compare_gt_iff.
    destruct (Z.lt_ge_cases (Zpos b) (Zpos a)) as [ H | H ]; [ exact H | ].
    pose proof (digits2_pos_mono a b ltac:(lia)). lia.
Qed.

Lemma of_int_fle a b :
  1 <= a -> a <= b -> b <= 65535 ->
  fle (of_int prec emax a) (of_int prec emax b) = true.
Proof.
  intros H1 Hab Hb.
  destruct a as [ | a | a ]; try lia. destruct b as [ | b | b ]; try lia.
  unfold fle, SFleb. rewrite of_int_compare by lia.
  destruct (Z.compare_spec (Zpos a) (Zpos b)); try reflexivity; lia.
Qed.

Lemma of_int_flt a b :
  1 <= a -> a < b -> b <= 65535 ->
  flt (of_int prec emax a) (of_int prec emax b) = true.
Proof.
  intros H1 Hab Hb.
  destruct a as [ | a | a ]; try lia. destruct b as [ | b | b ]; try lia.
  unfold flt, SFltb. rewrite of_int_compare by lia.
  destruct (Z.compare_spec (Zpos a) (Zpos b)); try reflexivity; lia.
Qed.

Lemma binary_round_exact s m e (j : N) :
  canonical_mantissa prec emax m e = true ->
  binary_round prec emax s (Pos.shiftl m j) (e - Z.of_N j)
  = if e <=? emax - prec then S754_finite s m e else S754_infinity s.
Proof.
  intros Hc. unfold binary_round.
  rewrite digits2_pos_shiftl.
  replace (Zpos (digits2_pos m) + Z.of_N j + (e - Z.of_N j))
    with (Zpos (digits2_pos m) + e) by lia.
  rewrite (canonical_mantissa_eq m e Hc).
  unfold shl_align.
  replace (e - (e - Z.of_N j)) with (Z.of_N j) by lia.
  destruct j as [ | j ]; simpl Z.of_N; cbv iota beta.
  - now apply (binary_round_aux_exact s m e 0%N).
  - now apply (binary_round_aux_exact s m e (Npos j)).
Qed.

(** Adding one cell to a whole number of cells is exact. *)
Lemma fadd_of_int_1 k :
  1 <= k <= 65535 ->
  fadd prec emax (of_int prec emax k) (of_int prec emax 1)
  = of_int prec emax (k + 1).
Proof.
  intros Hk. destruct k as [ | a | a ]; try lia.
  pose proof (digits2_pos_ushort a ltac:(lia)) as Hda.
  assert (Hdb : Zpos (digits2_pos (a + 1)) <= 17).
  { pose proof (digits2_pos_lower (a + 1)) as Hl.
    destruct (Z.le_gt_cases (Zpos (digits2_pos (a + 1))) 17) as [ H | H ];
      [ exact H | ].
    assert (2 ^ 17 <= 2 ^ (Zpos (digits2_pos (a + 1)) - 1))
      by (apply Z.pow_le_mono_r; lia).
    change (2 ^ 17) with 131072 in *. lia. }
  change (Zpos a + 1) with (Zpos (a + 1)).
  rewrite (of_int_pos a), of_int_1 by lia.
  rewrite (of_int_pos (a + 1)) by lia.
  unfold fadd, SFadd.
  rewrite Z.min_r by lia.
  rewrite !shl_align_le by lia. cbn [fst cond_Zopp].
  change (Zpos ?p + Zpos ?q) with (Zpos (p + q)).
  cbn [binary_normalize].
  set (db := Zpos (digits2_pos (a + 1))) in *.
  set (da := Zpos (digits2_pos a)) in *.
  set (mb := Pos.shiftl (a + 1) (Z.to_N (prec - db))).
  replace (_ + _)%positive with (Pos.shiftl mb (Z.to_N (db - 1))).
  2:{ apply Pos2Z.inj. unfold mb.
      rewrite Pos2Z.inj_add, !Zpos_shiftl, Zpos_pow2_mantissa by lia.
      rewrite !Z2N.id by lia.
      replace (1 - prec - (1 - prec)) with 0 by lia.
      replace (da - prec - (1 - prec)) with (da - 1) by lia.
      rewrite <- !Z.mul_assoc, <- !Z.pow_add_r by lia.
      replace (prec - db + (db - 1)) with (prec - 1) by lia.
      replace (prec - da + (da - 1)) with (prec - 1) by lia.
      rewrite Pos2Z.inj_add, Z.add_0_r. ring. }
  replace (1 - prec) with (db - prec - Z.of_N (Z.to_N (db - 1)))
    by (rewrite Z2N.id; lia).
  rewrite binary_round_exact.
  - destruct (Z.leb_spec (db - prec) (emax - prec)); [ reflexivity | lia ].
  - unfold canonical_mantissa, mb. apply Z.eqb_eq.
    rewrite digits2_pos_shiftl, Z2N.id, fexp_eq by lia. fold db. lia.
Qed.

(** The order of two converted integers is the order of the integers. *)
Lemma of_int_flt_inv a b :
  1 <= a <= 65535 -> 0 <= b <= 65535 ->
  flt (of_int prec emax a) (of_int prec emax b) = true -> a < b.
Proof.
  intros Ha Hb. destruct a as [ | a | a ]; try lia.
  destruct b as [ | b | b ]; try lia.
  - rewrite of_int_0, of_int_pos
      by (pose proof (digits2_pos_ushort a ltac:(lia)); lia).
    discriminate.
  - unfold flt, SFltb. rewrite of_int_compare by lia.
    destruct (Z.compare_spec (Zpos a) (Zpos b)); try discriminate; lia.
Qed.

End Exact.

(** ** The bounds of a step *)

Section Bounds.

Variables prec emax : Z.
Variable tty : tty_ctx_t.

Lemma of_int_not_nan n : is_nan (of_int prec emax n) = false.
Proof. apply binary_normalize_not_nan. Qed.

(** What the clamp of both [constrain_x] and [constrain_y] returns. *)
Lemma clamp_in_range_or_clamp bound v :
  is_nan v = false ->
  in_range_or_clamp prec emax bound
    (if flt v (of_int prec emax 1) then of_int prec emax 1
     else if fge v (of_int prec emax bound) then of_int prec emax (bound - 1)
     else v).
Proof.
  intros Hv. unfold in_range_or_clamp.
  destruct (flt v (of_int prec emax 1)) eqn:Hlow;
    [ left; reflexivity | ].
  destruct (fge v (of_int prec emax bound)) eqn:Hhigh;
    [ right; left; reflexivity | ].
  unfold fge in Hhigh. fold (fle (of_int prec emax bound) v) in Hhigh.
  right; right. split.
  - apply flt_false_fle; auto using of_int_not_nan.
  - apply fle_false_flt; auto using of_int_not_nan.
Qed.

Lemma constrain_in_range_or_clamp p :
  is_nan (x p) = false -> is_nan (y p) = false ->
  point_in_range_or_clamp prec emax tty (constrain prec emax tty p).
Proof.
  intros Hx Hy. split; simpl.
  - apply (clamp_in_range_or_clamp (DISPLAY_WIDTH tty)), Hx.
  - apply (clamp_in_range_or_clamp (DISPLAY_HEIGHT tty)), Hy.
Qed.

(** A number that does not collide is strictly between the walls. *)
Lemma no_collision_strictly_inside p :
  is_nan (x p) = false -> is_nan (y p) = false ->
  collision prec emax tty p = false ->
  point_strictly_inside prec emax tty p.
Proof.
  intros Hx Hy Hc. unfold collision, collision_x, collision_y, fge in Hc.
  apply orb_false_iff in Hc. destruct Hc as [Hcx Hcy].
  apply orb_false_iff in Hcx. apply orb_false_iff in Hcy.
  destruct Hcx as [Hx1 Hx2], Hcy as [Hy1 Hy2].
  repeat split; apply fle_false_flt; auto using of_int_not_nan.
Qed.

Lemma entity_finite_fields e :
  entity_finite e = true ->
  (is_finite (x (pos e)) = true /\ is_finite (y (pos e)) = true)
  /\ (is_finite (x (delta e)) = true /\ is_finite (y (delta e)) = true)
  /\ (is_finite (x (size e)) = true /\ is_finite (y (size e)) = true).
Proof.
  unfold entity_finite, vec2_finite. intros H.
  apply andb_true_iff in H. destruct H as [H Hs].
  apply andb_true_iff in H. destruct H as [Hp Hd].
  apply andb_true_iff in Hp, Hd, Hs. auto.
Qed.

Lemma new_pos_not_nan e :
  entity_finite e = true ->
  is_nan (x (new_pos_of prec emax e)) = false
  /\ is_nan (y (new_pos_of prec emax e)) = false.
Proof.
  intros H. apply entity_finite_fields in H.
  destruct H as [[Hpx Hpy] [[Hdx Hdy] _]].
  split; simpl; apply fadd_finite_not_nan; assumption.
Qed.

Lemma new_end_not_nan e :
  entity_finite e = true ->
  is_nan (x (new_end_of prec emax e)) = false
  /\ is_nan (y (new_end_of prec emax e)) = false.
Proof.
  intros H. apply entity_finite_fields in H.
  destruct H as [[Hpx Hpy] [[Hdx Hdy] [Hsx Hsy]]].
  split; simpl; apply fadd_not_nan; try assumption;
    apply fadd_finite_not_nan; assumption.
Qed.

(** The outcomes of a step, in every format and every viewport. *)
Lemma entity_move_outcomes e :
  entity_finite e = true -> step_outcome_clamped prec emax tty e.
Proof.
  intros Hfin. unfold step_outcome_clamped.
  destruct (new_pos_not_nan e Hfin) as [Hpx Hpy].
  destruct (new_end_not_nan e Hfin) as [Hex Hey].
  rewrite (entity_move_pos prec emax tty e).
  destruct (collision prec emax tty (new_pos_of prec emax e)) eqn:Hlead.
  - left. split; [ reflexivity | ].
    now apply constrain_in_range_or_clamp.
  - right.
    destruct (collision prec emax tty (new_end_of prec emax e)) eqn:Htrail.
    + left. repeat split; try reflexivity.
      all: now apply constrain_in_range_or_clamp.
    + right. split; [ reflexivity | ]. split; [ reflexivity | ].
      split; [ reflexivity | ].
      split; now apply no_collision_strictly_inside.
Qed.


Hypothesis Hprec : 53 <= prec.
Hypothesis Hemax : 1024 <= emax.
Hypothesis Htty : tty_wf tty.

(** In a viewport of at least two cells, a coordinate in range or clamped
    is in the half-open range. *)
Lemma in_range_or_clamp_half_open bound v :
  2 <= bound <= 65535 ->
  in_range_or_clamp prec emax bound v ->
  fle (of_int prec emax 1) v && flt v (of_int prec emax bound) = true.
Proof.
  intros Hb [-> | [-> | [Hl Hu]]].
  - rewrite of_int_fle, of_int_flt by lia. reflexivity.
  - rewrite of_int_fle, of_int_flt by lia. reflexivity.
  - rewrite Hl, Hu. reflexivity.
Qed.

Lemma point_in_range_or_clamp_half_open p :
  2 <= DISPLAY_WIDTH tty -> 2 <= DISPLAY_HEIGHT tty ->
  point_in_range_or_clamp prec emax tty p ->
  point_in_half_open prec emax tty p = true.
Proof.
  intros Hw Hh [Hx Hy]. destruct Htty as [Hr Hc].
  unfold point_in_half_open.
  apply in_range_or_clamp_half_open in Hx, Hy;
    try (unfold DISPLAY_WIDTH, DISPLAY_HEIGHT in *; lia).
  rewrite <- andb_assoc, Hx, Hy. reflexivity.
Qed.

(** C1, amended: in a terminal whose viewport is at least two cells wide
    and high, for every entity with finite components one call to
    [entity_move] ends in one of three ways.  Leading-edge collision: each
    coordinate of the new position lies in [[1, bound)].  Trailing-edge
    collision only: the new position is [c - size] for the clamped
    tentative far corner [c], and each coordinate of [c] lies in
    [[1, bound)].  No collision: the new position is the tentative one,
    and it and the tentative far corner lie strictly between [1] and
    [bound] on both axes. *)
Theorem entity_move_bounds e :
  2 <= DISPLAY_WIDTH tty -> 2 <= DISPLAY_HEIGHT tty ->
  entity_finite e = true -> step_outcome_bounded prec emax tty e.
Proof.
  intros Hw Hh Hfin.
  destruct (entity_move_outcomes e Hfin)
    as [[Hc Hp] | [[Hc [Hc' [Hp Hq]]] | H]].
  - left. split; [ exact Hc | ].
    now apply point_in_range_or_clamp_half_open.
  - right; left. repeat split; try assumption.
    now apply point_in_range_or_clamp_half_open.
  - right; right. exact H.
Qed.

End Bounds.

(** C1, as stated, fails: the entity at (76, 5) with size (2, 1) and
    velocity (0.5, 0.5) lies within the viewport of an 80x24 terminal, even
    within [[1, bound - 1]]; after one step, which meets no wall, its far
    corner is at x = 78.5, beyond [DISPLAY_WIDTH - 1 = 78]. *)
Lemma entity_move_leaves_clamp_range :
  in_viewport x87_prec x87_emax tty_80x24 entity_near_right_edge = true
  /\ in_clamp_range x87_prec x87_emax tty_80x24 entity_near_right_edge = true
  /\ in_clamp_range x87_prec x87_emax tty_80x24
       (entity_move x87_prec x87_emax tty_80x24 entity_near_right_edge) = false
  /\ x (vec2_add x87_prec x87_emax
          (pos (entity_move x87_prec x87_emax tty_80x24 entity_near_right_edge))
          (size entity_near_right_edge))
     = x87 157 (-1).
Proof. vm_compute. auto. Qed.

Lemma entity_move_bounds_witness :
  53 <= x87_prec /\ 1024 <= x87_emax /\ tty_wf tty_80x24
  /\ 2 <= DISPLAY_WIDTH tty_80x24 /\ 2 <= DISPLAY_HEIGHT tty_80x24
  /\ entity_finite entity_near_right_edge = true
  /\ step_outcome_bounded x87_prec x87_emax tty_80x24 entity_near_right_edge.
Proof.
  assert (Hp : 53 <= x87_prec) by (unfold x87_prec; lia).
  assert (He : 1024 <= x87_emax) by (unfold x87_emax; lia).
  assert (Ht : tty_wf tty_80x24) by (unfold tty_wf; simpl; lia).
  assert (Hw : 2 <= DISPLAY_WIDTH tty_80x24) by (vm_compute; discriminate).
  assert (Hh : 2 <= DISPLAY_HEIGHT tty_80x24) by (vm_compute; discriminate).
  repeat (split; [ assumption | ]).
  split; [ reflexivity | ].
  apply (entity_move_bounds x87_prec x87_emax tty_80x24 Hp He Ht
           entity_near_right_edge Hw Hh).
  reflexivity.
Defined.

(** After a leading-edge collision the far corner is not held back: the
    entity at (1, 20) with size (2, 2) and velocity (-0.5, 1.5) ends with
    its far corner at y = 23.5, beyond [DISPLAY_HEIGHT = 23]. *)
Example entity_move_far_corner_beyond_bound :
  in_viewport x87_prec x87_emax tty_80x24 entity_leaving_left = true
  /\ vec2_add x87_prec x87_emax
       (pos (entity_move x87_prec x87_emax tty_80x24 entity_leaving_left))
       (size entity_leaving_left)
     = mk_vec2 (x87_int 3) (x87 47 (-1)).
Proof. vm_compute. auto. Qed.

(** After a trailing-edge collision the position is not held back: the
    entity at (1, 5) with size (78, 1) and velocity (0.5, 0) ends at
    x = 0. *)
Example entity_move_position_below_one :
  in_viewport x87_prec x87_emax tty_80x24 entity_full_width = true
  /\ pos (entity_move x87_prec x87_emax tty_80x24 entity_full_width)
     = mk_vec2 (S754_zero false) (x87_int 5).
Proof. vm_compute. auto. Qed.

(** ** Resize and Speed modes *)

Section Modes.

Variables prec emax : Z.
Variable tty : tty_ctx_t.

Lemma handle_command_resize_w e :
  handle_command prec emax tty (key "w") RESIZE e
  = (RESIZE,
     if size_below_half prec emax tty (size e)
     then mk_entity (pos e) (delta e) (grown_size prec emax e)
     else e).
Proof.
  unfold handle_command, size_below_half, grown_size.
  change (key "w" =? key "q") with false.
  change (key "w" =? key "n") with false.
  change (key "w" =? key "w") with true. cbv iota.
  destruct (flt (x (size e)) (of_int prec emax (MAX_ENTITY_WIDTH tty))
            && flt (y (size e)) (of_int prec emax (MAX_ENTITY_HEIGHT tty)));
    reflexivity.
Qed.

Lemma handle_command_speed_w e :
  handle_command prec emax tty (key "w") SPEED e
  = (SPEED,
     if delta_below_extent prec emax tty (delta e)
     then mk_entity (pos e) (doubled_delta prec emax e) (size e)
     else e).
Proof.
  unfold handle_command, delta_below_extent, doubled_delta, double_component.
  change (key "w" =? key "q") with false.
  change (key "w" =? key "n") with false.
  change (key "w" =? key "w") with true. cbv iota.
  destruct (flt (x (delta e)) (of_int prec emax (MAX_ENTITY_DELTA_X tty))
            && flt (y (delta e)) (of_int prec emax (MAX_ENTITY_DELTA_Y tty)));
    reflexivity.
Qed.

Lemma handle_command_speed_s e :
  handle_command prec emax tty (key "s") SPEED e
  = (SPEED,
     if delta_above_min prec emax (delta e)
     then mk_entity (pos e)
            (mk_vec2 (halve_component prec emax (x (delta e)))
                     (halve_component prec emax (y (delta e))))
            (size e)
     else e).
Proof.
  unfold handle_command, delta_above_min, halve_component.
  change (key "s" =? key "q") with false.
  change (key "s" =? key "n") with false.
  change (key "s" =? key "w") with false.
  change (key "s" =? key "s") with true. cbv iota.
  destruct (fgt (x (delta e)) (of_int prec emax MIN_ENTITY_DELTA_X)
            && fgt (y (delta e)) (of_int prec emax MIN_ENTITY_DELTA_Y));
    reflexivity.
Qed.

Hypothesis Hprec : 53 <= prec.
Hypothesis Hemax : 1024 <= emax.

(** C6, amended: in Speed mode, [w] doubles both velocity components
    exactly when both components before the step are below
    [DISPLAY_WIDTH] and [DISPLAY_HEIGHT]; otherwise the entity is
    unchanged.  The doubling turns a zero component into 2 and multiplies
    any other component by 2. *)
Theorem speed_doubles_below_extent e :
  handle_command prec emax tty (key "w") SPEED e
  = (SPEED,
     if delta_below_extent prec emax tty (delta e)
     then mk_entity (pos e) (doubled_delta prec emax e) (size e)
     else e)
  /\ (forall s, double_component prec emax (S754_zero s) = of_int prec emax 2)
  /\ (forall v, SFeqb v (S754_zero false) = false ->
        double_component prec emax v = fmul prec emax v (of_int prec emax 2)).
Proof.
  split; [ exact (handle_command_speed_w e) | ].
  split; [ intros s; now apply double_component_zero | ].
  intros v Hv. now apply double_component_nonzero.
Qed.

Hypothesis Htty : tty_wf tty.

Lemma display_bounds :
  -1 <= DISPLAY_WIDTH tty <= 65535 /\ -1 <= DISPLAY_HEIGHT tty <= 65535.
Proof.
  destruct Htty as [Hr Hc]. unfold DISPLAY_WIDTH, DISPLAY_HEIGHT. lia.
Qed.

Lemma max_entity_bounds :
  0 <= MAX_ENTITY_WIDTH tty <= 65535 /\ 0 <= MAX_ENTITY_HEIGHT tty <= 65535.
Proof.
  destruct display_bounds as [Hw Hh].
  unfold MAX_ENTITY_WIDTH, MAX_ENTITY_HEIGHT.
  split; Z.to_euclidean_division_equations; lia.
Qed.

(** C5, amended: in Resize mode, [w] increases the size by one cell in
    both dimensions exactly when the size before the step is strictly
    below [DISPLAY_WIDTH / 2] and [DISPLAY_HEIGHT / 2] (integer halves) in
    both dimensions; otherwise the entity is unchanged.  The mode, the
    position and the velocity stay as they are.  For a size of whole
    cells the grown size is the next whole size and at most the half. *)
Theorem resize_grows_below_half e :
  handle_command prec emax tty (key "w") RESIZE e
  = (RESIZE,
     if size_below_half prec emax tty (size e)
     then mk_entity (pos e) (delta e) (grown_size prec emax e)
     else e)
  /\ (forall kx ky,
        1 <= kx <= 65535 -> 1 <= ky <= 65535 ->
        size e = mk_vec2 (of_int prec emax kx) (of_int prec emax ky) ->
        size_below_half prec emax tty (size e) = true ->
        grown_size prec emax e
        = mk_vec2 (of_int prec emax (kx + 1)) (of_int prec emax (ky + 1))
        /\ kx + 1 <= MAX_ENTITY_WIDTH tty
        /\ ky + 1 <= MAX_ENTITY_HEIGHT tty).
Proof.
  split; [ exact (handle_command_resize_w e) | ].
  intros kx ky Hkx Hky Hsize Hbelow.
  destruct max_entity_bounds as [Hw Hh].
  unfold size_below_half in Hbelow. rewrite Hsize in Hbelow.
  cbn [x y] in Hbelow. apply andb_true_iff in Hbelow.
  destruct Hbelow as [Hx Hy].
  apply of_int_flt_inv in Hx; try lia. apply of_int_flt_inv in Hy; try lia.
  unfold grown_size. rewrite Hsize. cbn [x y].
  rewrite !fadd_of_int_1 by lia.
  split; [ reflexivity | lia ].
Qed.

(** C7, amended: for every velocity whose two components are both numbers
    of the format strictly between zero and the viewport extent
    ([0 < x < DISPLAY_WIDTH] and [0 < y < DISPLAY_HEIGHT]), the Speed-mode
    doubling ([w]) followed by the Speed-mode halving ([s]) returns the
    entity it started from, and on each component halving the doubled
    value gives the value back, exactly also in floating point.  The two
    guards test both components together, so one component within the
    bounds is not enough: see [speed_halve_needs_both_components]. *)
Theorem speed_halve_undoes_double e :
  vec2_valid prec emax (delta e) = true ->
  delta_above_min prec emax (delta e) = true ->
  delta_below_extent prec emax tty (delta e) = true ->
  handle_command prec emax tty (key "s") SPEED
    (snd (handle_command prec emax tty (key "w") SPEED e))
  = (SPEED, e)
  /\ halve_component prec emax (double_component prec emax (x (delta e)))
     = x (delta e)
  /\ halve_component prec emax (double_component prec emax (y (delta e)))
     = y (delta e).
Proof.
  intros Hvalid Hmin Hmax.
  destruct display_bounds as [Hw Hh].
  unfold vec2_valid in Hvalid. apply andb_true_iff in Hvalid.
  destruct Hvalid as [Hvx Hvy].
  pose proof Hmin as Hmin'. unfold delta_above_min in Hmin'.
  apply andb_true_iff in Hmin'. destruct Hmin' as [Hpx Hpy].
  pose proof Hmax as Hmax'. unfold delta_below_extent in Hmax'.
  apply andb_true_iff in Hmax'. destruct Hmax' as [Hbx Hby].
  destruct (halve_double_component prec emax Hprec Hemax (x (delta e))
              (DISPLAY_WIDTH tty) Hw Hvx Hpx Hbx) as [Hx Hx0].
  destruct (halve_double_component prec emax Hprec Hemax (y (delta e))
              (DISPLAY_HEIGHT tty) Hh Hvy Hpy Hby) as [Hy Hy0].
  split; [ | split; assumption ].
  rewrite handle_command_speed_w, Hmax.
  cbn [snd]. rewrite handle_command_speed_s.
  unfold delta_above_min, doubled_delta. cbn [delta pos size x y].
  unfold MIN_ENTITY_DELTA_X, MIN_ENTITY_DELTA_Y.
  rewrite Hx0, Hy0, Hx, Hy. cbn [andb].
  destruct e as [p [dx dy] sz]. reflexivity.
Qed.

End Modes.

(** C5, as stated, fails: in an 80x25 terminal ([DISPLAY_HEIGHT = 24],
    half of it 12) the entity of size (12, 11) is grown by [w] to
    (13, 12), a size that is not strictly below half the viewport. *)
Lemma resize_grows_up_to_half :
  size_below_half x87_prec x87_emax tty_80x25
    (grown_size x87_prec x87_emax entity_size_12_11) = false
  /\ size (snd (handle_command x87_prec x87_emax tty_80x25 (key "w") RESIZE
                 entity_size_12_11))
     = mk_vec2 (x87_int 13) (x87_int 12)
  /\ size (snd (handle_command x87_prec x87_emax tty_80x25 (key "w") RESIZE
                 entity_size_12_11))
     <> size entity_size_12_11.
Proof.
  split; [ vm_compute; reflexivity | ].
  split; [ vm_compute; reflexivity | ].
  vm_compute. discriminate.
Qed.

Lemma resize_grows_below_half_witness :
  53 <= x87_prec /\ 1024 <= x87_emax /\ tty_wf tty_80x25
  /\ handle_command x87_prec x87_emax tty_80x25 (key "w") RESIZE
       entity_size_12_11
     = (RESIZE,
        if size_below_half x87_prec x87_emax tty_80x25 (size entity_size_12_11)
        then mk_entity (pos entity_size_12_11) (delta entity_size_12_11)
               (grown_size x87_prec x87_emax entity_size_12_11)
        else entity_size_12_11).
Proof.
  assert (Hp : 53 <= x87_prec) by (unfold x87_prec; lia).
  assert (He : 1024 <= x87_emax) by (unfold x87_emax; lia).
  assert (Ht : tty_wf tty_80x25) by (unfold tty_wf; simpl; lia).
  split; [ exact Hp | ]. split; [ exact He | ]. split; [ exact Ht | ].
  exact (proj1 (resize_grows_below_half x87_prec x87_emax tty_80x25 Hp He Ht
                  entity_size_12_11)).
Defined.

(** The size (12, 11) is the one the default entity has after ten growth
    steps. *)
Example resize_reaches_12_11 :
  press tty_80x25 (key "w") RESIZE 10 x87_default = entity_size_12_11.
Proof. vm_compute. reflexivity. Qed.

(** C6, as stated, fails: in an 80x24 terminal ([DISPLAY_HEIGHT = 23]) the
    velocity (16, 16) is doubled by [w] to (32, 32), which is not below
    the viewport extent. *)
Lemma speed_doubles_beyond_extent :
  delta_below_extent x87_prec x87_emax tty_80x24
    (doubled_delta x87_prec x87_emax entity_delta_16) = false
  /\ delta (snd (handle_command x87_prec x87_emax tty_80x24 (key "w") SPEED
                  entity_delta_16))
     = mk_vec2 (x87_int 32) (x87_int 32)
  /\ delta (snd (handle_command x87_prec x87_emax tty_80x24 (key "w") SPEED
                  entity_delta_16))
     <> delta entity_delta_16.
Proof.
  split; [ vm_compute; reflexivity | ].
  split; [ vm_compute; reflexivity | ].
  vm_compute. discriminate.
Qed.

Lemma speed_doubles_below_extent_witness :
  53 <= x87_prec /\ 1024 <= x87_emax
  /\ (handle_command x87_prec x87_emax tty_80x24 (key "w") SPEED
        entity_delta_zero_x
      = (SPEED,
         if delta_below_extent x87_prec x87_emax tty_80x24
              (delta entity_delta_zero_x)
         then mk_entity (pos entity_delta_zero_x)
                (doubled_delta x87_prec x87_emax entity_delta_zero_x)
                (size entity_delta_zero_x)
         else entity_delta_zero_x)
      /\ (forall s, double_component x87_prec x87_emax (S754_zero s)
                    = of_int x87_prec x87_emax 2)
      /\ (forall v, SFeqb v (S754_zero false) = false ->
            double_component x87_prec x87_emax v
            = fmul x87_prec x87_emax v (of_int x87_prec x87_emax 2))).
Proof.
  assert (Hp : 53 <= x87_prec) by (unfold x87_prec; lia).
  assert (He : 1024 <= x87_emax) by (unfold x87_emax; lia).
  split; [ exact Hp | ]. split; [ exact He | ].
  exact (speed_doubles_below_extent x87_prec x87_emax tty_80x24 Hp He
           entity_delta_zero_x).
Defined.

(** With velocity (0, 0.5) the doubling yields (2, 1). *)
Example speed_doubles_zero_to_two :
  delta (snd (handle_command x87_prec x87_emax tty_80x24 (key "w") SPEED
                entity_delta_zero_x))
  = mk_vec2 (x87_int 2) (x87_int 1).
Proof. vm_compute. reflexivity. Qed.

(** From the default velocity, twelve doublings give 0.005 * 2^12 (about
    20.48), still below [DISPLAY_HEIGHT = 23]; the thirteenth gives about
    40.96, beyond it; the fourteenth key press changes nothing. *)
Example speed_reaches_beyond_extent :
  delta_below_extent x87_prec x87_emax tty_80x24
    (delta (press tty_80x24 (key "w") SPEED 12 x87_default)) = true
  /\ delta_below_extent x87_prec x87_emax tty_80x24
       (delta (press tty_80x24 (key "w") SPEED 13 x87_default)) = false
  /\ flt (x87_int 40) (y (delta (press tty_80x24 (key "w") SPEED 13 x87_default)))
     = true
  /\ press tty_80x24 (key "w") SPEED 14 x87_default
     = press tty_80x24 (key "w") SPEED 13 x87_default.
Proof. vm_compute. repeat split; reflexivity. Qed.

(** A velocity below zero, as a reflection leaves it, is outside the speed
    bounds: [w] doubles it and [s] then leaves it doubled. *)
Example speed_negative_not_halved :
  delta (snd (handle_command x87_prec x87_emax tty_80x24 (key "s") SPEED
                (snd (handle_command x87_prec x87_emax tty_80x24 (key "w")
                        SPEED entity_delta_negative))))
  = mk_vec2 (x87_int (-1)) (x87_int (-1)).
Proof. vm_compute. reflexivity. Qed.

Lemma speed_halve_undoes_double_witness :
  53 <= x87_prec /\ 1024 <= x87_emax /\ tty_wf tty_80x24
  /\ vec2_valid x87_prec x87_emax (delta x87_default) = true
  /\ delta_above_min x87_prec x87_emax (delta x87_default) = true
  /\ delta_below_extent x87_prec x87_emax tty_80x24 (delta x87_default) = true
  /\ handle_command x87_prec x87_emax tty_80x24 (key "s") SPEED
       (snd (handle_command x87_prec x87_emax tty_80x24 (key "w") SPEED
               x87_default))
     = (SPEED, x87_default).
Proof.
  assert (Hp : 53 <= x87_prec) by (unfold x87_prec; lia).
  assert (He : 1024 <= x87_emax) by (unfold x87_emax; lia).
  assert (Ht : tty_wf tty_80x24) by (unfold tty_wf; simpl; lia).
  split; [ exact Hp | ]. split; [ exact He | ]. split; [ exact Ht | ].
  split; [ vm_compute; reflexivity | ].
  split; [ vm_compute; reflexivity | ].
  split; [ vm_compute; reflexivity | ].
  apply (speed_halve_undoes_double x87_prec x87_emax tty_80x24 Hp He Ht
           x87_default); vm_compute; reflexivity.
Defined.

(** C7, as stated, fails: after its first frame in an 80x24 terminal the
    default entity has velocity (0.005, -0.005).  The x component is above
    zero and below [DISPLAY_WIDTH], and halving its double gives it back,
    yet [w] followed by [s] does not return it: [w] doubles both
    components (both are below the extent), and [s] then changes nothing,
    because the y component is not above zero.  The x velocity is left
    doubled. *)
Lemma speed_halve_needs_both_components :
  fgt (x (delta entity_after_first_step)) (x87_int 0) = true
  /\ flt (x (delta entity_after_first_step))
         (x87_int (DISPLAY_WIDTH tty_80x24)) = true
  /\ halve_component x87_prec x87_emax
       (double_component x87_prec x87_emax (x (delta entity_after_first_step)))
     = x (delta entity_after_first_step)
  /\ x (delta (snd (handle_command x87_prec x87_emax tty_80x24 (key "s") SPEED
                 (snd (handle_command x87_prec x87_emax tty_80x24 (key "w")
                         SPEED entity_after_first_step)))))
     = double_component x87_prec x87_emax (x (delta entity_after_first_step))
  /\ x (delta (snd (handle_command x87_prec x87_emax tty_80x24 (key "s") SPEED
                 (snd (handle_command x87_prec x87_emax tty_80x24 (key "w")
                         SPEED entity_after_first_step)))))
     <> x (delta entity_after_first_step).
Proof.
  split; [ vm_compute; reflexivity | ].
  split; [ vm_compute; reflexivity | ].
  split; [ vm_compute; reflexivity | ].
  split; [ vm_compute; reflexivity | ].
  vm_compute. discriminate.
Qed.

(** ** The first frame of the default entity *)

(** C4, amended: with the entity at its creation defaults, position
    (1, 60), size (2, 1), velocity (0.005, 0.005), in a terminal of 80
    columns by 24 rows, one call to [entity_move] meets the bottom wall on
    the leading-edge pass ([60 + 0.005 >= DISPLAY_HEIGHT = 23]) and not a
    side wall: x advances to [1 + 0.005], y is clamped to
    [DISPLAY_HEIGHT - 1 = 22], the y velocity is negated, and the x
    velocity and the size are unchanged; with no key pressed the mode
    stays [NORMAL] and the entity is the one [entity_move] left.  This
    holds in each of the formats [long double] commonly has. *)
Theorem default_first_frame prec emax :
  In (prec, emax) long_double_formats ->
  collision_x prec emax tty_80x24
    (x (new_pos_of prec emax (DEFAULT_ENTITY_PROPERTIES prec emax))) = false
  /\ collision_y prec emax tty_80x24
       (y (new_pos_of prec emax (DEFAULT_ENTITY_PROPERTIES prec emax))) = true
  /\ entity_move prec emax tty_80x24 (DEFAULT_ENTITY_PROPERTIES prec emax)
     = mk_entity
         (mk_vec2 (fadd prec emax (of_int prec emax 1)
                     (of_double prec emax double_0_005))
                  (of_int prec emax 22))
         (mk_vec2 (of_double prec emax double_0_005)
                  (fneg (of_double prec emax double_0_005)))
         (mk_vec2 (of_int prec emax 2) (of_int prec emax 1))
  /\ frame prec emax tty_80x24 EOF NORMAL (DEFAULT_ENTITY_PROPERTIES prec emax)
     = (NORMAL,
        entity_move prec emax tty_80x24 (DEFAULT_ENTITY_PROPERTIES prec emax)).
Proof.
  intros [H | [H | [H | []]]]; injection H as <- <-;
    vm_compute; repeat split; reflexivity.
Qed.

Lemma default_first_frame_witness :
  In (x87_prec, x87_emax) long_double_formats
  /\ entity_move x87_prec x87_emax tty_80x24 x87_default
     = mk_entity
         (mk_vec2 (fadd x87_prec x87_emax (x87_int 1)
                     (of_double x87_prec x87_emax double_0_005))
                  (x87_int 22))
         (mk_vec2 (of_double x87_prec x87_emax double_0_005)
                  (fneg (of_double x87_prec x87_emax double_0_005)))
         (mk_vec2 (x87_int 2) (x87_int 1)).
Proof.
  assert (H : In (x87_prec, x87_emax) long_double_formats)
    by (right; left; reflexivity).
  split; [ exact H | ].
  exact (proj1 (proj2 (proj2 (default_first_frame x87_prec x87_emax H)))).
Defined.

(** C4, as stated, fails: the first step of the default entity in an 80x24
    terminal does meet a wall, and the position it yields is not the
    position plus the velocity. *)
Lemma default_first_frame_collides :
  collision x87_prec x87_emax tty_80x24
    (new_pos_of x87_prec x87_emax x87_default) = true
  /\ pos (entity_move x87_prec x87_emax tty_80x24 x87_default)
     <> vec2_add x87_prec x87_emax (pos x87_default) (delta x87_default).
Proof.
  split; [ vm_compute; reflexivity | vm_compute; discriminate ].
Qed.

(** In a terminal of 63 rows, the least height that holds the default
    entity, the first step meets no wall; with one row less the trailing
    edge meets the bottom wall. *)
Example default_first_frame_63_rows :
  collision x87_prec x87_emax (mk_tty 63 80)
    (new_pos_of x87_prec x87_emax x87_default) = false
  /\ collision x87_prec x87_emax (mk_tty 63 80)
       (new_end_of x87_prec x87_emax x87_default) = false
  /\ pos (entity_move x87_prec x87_emax (mk_tty 63 80) x87_default)
     = vec2_add x87_prec x87_emax (pos x87_default) (delta x87_default)
  /\ collision x87_prec x87_emax (mk_tty 62 80)
       (new_end_of x87_prec x87_emax x87_default) = true.
Proof. vm_compute. repeat split; reflexivity. Qed.

(** The constant [0.005] is the binary64 number [0x1.47ae147ae147bp-8]. *)
Example double_0_005_bits :
  double_0_005 = S754_finite false 5764607523034235 (-60).
Proof. vm_compute. reflexivity. Qed.

(** In the x87 format the sum [1 + 0.005] is exact and [60 + 0.005] is
    rounded: a collision-free step moves x by exactly the velocity and y
    by the velocity up to one rounding. *)
Example default_step_rounding :
  fsub x87_prec x87_emax
    (fadd x87_prec x87_emax (x87_int 1) (of_double x87_prec x87_emax double_0_005))
    (x87_int 1)
  = of_double x87_prec x87_emax double_0_005
  /\ fsub x87_prec x87_emax
       (fadd x87_prec x87_emax (x87_int 60)
          (of_double x87_prec x87_emax double_0_005))
       (x87_int 60)
     <> of_double x87_prec x87_emax double_0_005.
Proof.
  split; [ vm_compute; reflexivity | vm_compute; discriminate ].
Qed.

(** * Further properties *)


(** ** The order of the format *)

Ltac compare_cases :=
  repeat match goal with
  | |- context [Pos.compare_cont Eq ?p ?q] =>
      change (Pos.compare_cont Eq p q) with (p ?= q)%positive
  | H : context [Pos.compare_cont Eq ?p ?q] |- _ =>
      change (Pos.compare_cont Eq p q) with (p ?= q)%positive in H
  end;
  repeat match goal with
  | |- context [(?p ?= ?q)%positive] => destruct (Pos.compare_spec p q)
  | H : context [(?p ?= ?q)%positive] |- _ => destruct (Pos.compare_spec p q)
  | |- context [?a ?= ?b] => destruct (Z.compare_spec a b)
  | H : context [?a ?= ?b] |- _ => destruct (Z.compare_spec a b)
  end.

Ltac float_order a b c :=
  unfold fle, flt, SFleb, SFltb, SFcompare;
  destruct a as [? | ? | | ? ? ?], b as [? | ? | | ? ? ?],
    c as [? | ? | | ? ? ?];
  try discriminate; try reflexivity;
  repeat match goal with s : bool |- _ => destruct s end;
  try discriminate; try reflexivity;
  intros; compare_cases;
  try discriminate; try reflexivity; subst; try lia.

Lemma fle_flt_trans a b c :
  fle a b = true -> flt b c = true -> flt a c = true.
Proof. float_order a b c. Qed.

Lemma flt_fle_trans a b c :
  flt a b = true -> fle b c = true -> flt a c = true.
Proof. float_order a b c. Qed.

Lemma fle_trans a b c :
  fle a b = true -> fle b c = true -> fle a c = true.
Proof. float_order a b c. Qed.

Lemma flt_irrefl a : flt a a = false.
Proof.
  unfold flt, SFltb, SFcompare.
  destruct a as [s | s | | s m e]; try reflexivity;
    try (destruct s; reflexivity).
  change (Pos.compare_cont Eq m m) with (m ?= m)%positive.
  rewrite Z.compare_refl, Pos.compare_refl. destruct s; reflexivity.
Qed.

(** [a <= b] excludes [b < a]. *)
Lemma fle_not_flt a b : fle a b = true -> flt b a = false.
Proof.
  intros H. destruct (flt b a) eqn:E; [ | reflexivity ].
  pose proof (fle_flt_trans a b a H E) as F.
  rewrite flt_irrefl in F. discriminate.
Qed.

Lemma flt_not_fle a b : flt a b = true -> fle b a = false.
Proof.
  intros H. destruct (fle b a) eqn:E; [ | reflexivity ].
  pose proof (fle_flt_trans b a b E H) as F.
  rewrite flt_irrefl in F. discriminate.
Qed.

(** [a <= b] is [a < b] or [a == b]. *)
Lemma fle_flt_or_eq a b : fle a b = flt a b || SFeqb a b.
Proof.
  unfold fle, flt, SFleb, SFltb, SFeqb.
  destruct (SFcompare a b) as [ [ | | ] | ]; reflexivity.
Qed.

(** A number that compares equal to a finite number is that number. *)
Lemma SFeqb_finite v s m e :
  SFeqb v (S754_finite s m e) = true -> v = S754_finite s m e.
Proof.
  unfold SFeqb, SFcompare.
  destruct v as [ s' | s' | | s' m' e' ]; try discriminate;
    try (destruct s; discriminate); try (destruct s'; discriminate).
  change (Pos.compare_cont Eq m' m) with (m' ?= m)%positive.
  destruct s', s; try discriminate;
    destruct (Z.compare_spec e' e); try discriminate;
    destruct (Pos.compare_spec m' m); try discriminate;
    subst; reflexivity.
Qed.

(** ** Out of bounds, collision and the clamp *)

Section Clamp.

Variables prec emax : Z.
Variable tty : tty_ctx_t.

Lemma collision_x_split v :
  collision_x prec emax tty v
  = out_of_bounds_x prec emax tty v || SFeqb v (of_int prec emax 1).
Proof.
  unfold collision_x, out_of_bounds_x, fge, fgt.
  change (SFleb v (of_int prec emax 1)) with (fle v (of_int prec emax 1)).
  rewrite fle_flt_or_eq. unfold flt.
  destruct (SFltb v (of_int prec emax 1)), (SFeqb v (of_int prec emax 1)),
    (SFleb (of_int prec emax (DISPLAY_WIDTH tty)) v); reflexivity.
Qed.

Lemma collision_y_split v :
  collision_y prec emax tty v
  = out_of_bounds_y prec emax tty v || SFeqb v (of_int prec emax 1).
Proof.
  unfold collision_y, out_of_bounds_y, fge, fgt.
  change (SFleb v (of_int prec emax 1)) with (fle v (of_int prec emax 1)).
  rewrite fle_flt_or_eq. unfold flt.
  destruct (SFltb v (of_int prec emax 1)), (SFeqb v (of_int prec emax 1)),
    (SFleb (of_int prec emax (DISPLAY_HEIGHT tty)) v); reflexivity.
Qed.

(** X1: a point collides exactly when it is out of bounds or lies on the
    line [x == 1] or [y == 1]; so every point that is out of bounds
    collides. *)
Theorem collision_out_of_bounds_or_on_line p :
  collision prec emax tty p
  = out_of_bounds prec emax tty p
    || SFeqb (x p) (of_int prec emax 1) || SFeqb (y p) (of_int prec emax 1).
Proof.
  unfold collision, out_of_bounds.
  rewrite collision_x_split, collision_y_split.
  destruct (out_of_bounds_x prec emax tty (x p)),
    (out_of_bounds_y prec emax tty (y p)),
    (SFeqb (x p) (of_int prec emax 1)), (SFeqb (y p) (of_int prec emax 1));
    reflexivity.
Qed.

(** A coordinate that is not out of bounds is left alone by the clamp. *)
Lemma constrain_x_in_bounds v :
  out_of_bounds_x prec emax tty v = false -> constrain_x prec emax tty v = v.
Proof.
  unfold out_of_bounds_x, constrain_x, fgt, flt. intros H.
  apply orb_false_iff in H. destruct H as [-> ->]. reflexivity.
Qed.

Lemma constrain_y_in_bounds v :
  out_of_bounds_y prec emax tty v = false -> constrain_y prec emax tty v = v.
Proof.
  unfold out_of_bounds_y, constrain_y, fgt, flt. intros H.
  apply orb_false_iff in H. destruct H as [-> ->]. reflexivity.
Qed.

Hypothesis Hprec : 53 <= prec.
Hypothesis Hemax : 1024 <= emax.

(** The clamp values are themselves in bounds, for a bound of at least
    two cells. *)
Lemma one_in_bounds bound :
  2 <= bound <= 65535 ->
  flt (of_int prec emax 1) (of_int prec emax 1) = false
  /\ fge (of_int prec emax 1) (of_int prec emax bound) = false.
Proof.
  intros Hb. split; [ apply flt_irrefl | ].
  unfold fge. apply (flt_not_fle (of_int prec emax 1)).
  apply of_int_flt; lia.
Qed.

Lemma bound_pred_in_bounds bound :
  2 <= bound <= 65535 ->
  flt (of_int prec emax (bound - 1)) (of_int prec emax 1) = false
  /\ fge (of_int prec emax (bound - 1)) (of_int prec emax bound) = false.
Proof.
  intros Hb. split.
  - apply fle_not_flt. apply of_int_fle; lia.
  - unfold fge. apply (flt_not_fle (of_int prec emax (bound - 1))).
    apply of_int_flt; lia.
Qed.

(** What the clamp of [constrain_x] and [constrain_y] returns is in
    bounds, whatever the argument. *)
Lemma clamp_in_bounds bound v :
  2 <= bound <= 65535 ->
  let r := if flt v (of_int prec emax 1) then of_int prec emax 1
           else if fge v (of_int prec emax bound)
                then of_int prec emax (bound - 1) else v in
  fgt (of_int prec emax 1) r || fge r (of_int prec emax bound) = false.
Proof.
  intros Hb r. unfold r, fgt.
  destruct (one_in_bounds bound Hb) as [H1 H2].
  destruct (bound_pred_in_bounds bound Hb) as [H3 H4].
  destruct (flt v (of_int prec emax 1)) eqn:Hlow.
  - fold (flt (of_int prec emax 1) (of_int prec emax 1)).
    rewrite H1, H2. reflexivity.
  - destruct (fge v (of_int prec emax bound)) eqn:Hhigh.
    + fold (flt (of_int prec emax (bound - 1)) (of_int prec emax 1)).
      rewrite H3, H4. reflexivity.
    + fold (flt v (of_int prec emax 1)). rewrite Hlow, Hhigh. reflexivity.
Qed.

(** The clamp changes every coordinate that is out of bounds. *)
Lemma clamp_moves_out_of_bounds bound v :
  2 <= bound <= 65535 ->
  fgt (of_int prec emax 1) v || fge v (of_int prec emax bound) = true ->
  (if flt v (of_int prec emax 1) then of_int prec emax 1
   else if fge v (of_int prec emax bound)
        then of_int prec emax (bound - 1) else v) <> v.
Proof.
  intros Hb Hout. unfold fgt in Hout.
  fold (flt v (of_int prec emax 1)) in Hout.
  destruct (one_in_bounds bound Hb) as [H1 H2].
  destruct (bound_pred_in_bounds bound Hb) as [H3 H4].
  destruct (flt v (of_int prec emax 1)) eqn:Hlow.
  - intros E. rewrite <- E in Hlow. congruence.
  - simpl in Hout. rewrite Hout.
    intros E. rewrite <- E in Hout. congruence.
Qed.

Hypothesis Htty : tty_wf tty.
Hypothesis Hwidth : 2 <= DISPLAY_WIDTH tty.
Hypothesis Hheight : 2 <= DISPLAY_HEIGHT tty.

Lemma display_in_range :
  2 <= DISPLAY_WIDTH tty <= 65535 /\ 2 <= DISPLAY_HEIGHT tty <= 65535.
Proof.
  destruct Htty as [Hr Hc]. unfold DISPLAY_WIDTH, DISPLAY_HEIGHT in *. lia.
Qed.

(** X2: in a viewport of at least two cells each way, [constrain] leaves a
    point unchanged exactly when the point is not out of bounds. *)
Theorem constrain_fixes_exactly_in_bounds p :
  constrain prec emax tty p = p <-> out_of_bounds prec emax tty p = false.
Proof.
  destruct display_in_range as [Hw Hh]. split.
  - intros E. destruct p as [px py]. unfold constrain in E. simpl in E.
    injection E as Ex Ey. unfold out_of_bounds. simpl.
    apply orb_false_iff. split.
    + destruct (out_of_bounds_x prec emax tty px) eqn:O; [ | reflexivity ].
      exfalso. exact (clamp_moves_out_of_bounds _ px Hw O Ex).
    + destruct (out_of_bounds_y prec emax tty py) eqn:O; [ | reflexivity ].
      exfalso. exact (clamp_moves_out_of_bounds _ py Hh O Ey).
  - intros O. unfold out_of_bounds in O. apply orb_false_iff in O.
    destruct O as [Ox Oy]. destruct p as [px py]. unfold constrain. simpl in *.
    rewrite constrain_x_in_bounds, constrain_y_in_bounds by assumption.
    reflexivity.
Qed.

(** X3: in a viewport of at least two cells each way, what [constrain]
    returns is never out of bounds, whatever the point (NaN and infinite
    coordinates included). *)
Theorem constrain_never_out_of_bounds p :
  out_of_bounds prec emax tty (constrain prec emax tty p) = false.
Proof.
  destruct display_in_range as [Hw Hh].
  unfold out_of_bounds, constrain. simpl. apply orb_false_iff. split.
  - exact (clamp_in_bounds _ (x p) Hw).
  - exact (clamp_in_bounds _ (y p) Hh).
Qed.

Lemma constrain_stable p :
  constrain prec emax tty (constrain prec emax tty p)
  = constrain prec emax tty p.
Proof.
  destruct display_in_range as [Hw Hh].
  pose proof (clamp_in_bounds _ (x p) Hw) as Ox.
  pose proof (clamp_in_bounds _ (y p) Hh) as Oy.
  unfold constrain. simpl.
  rewrite constrain_x_in_bounds, constrain_y_in_bounds;
    [ reflexivity | exact Oy | exact Ox ].
Qed.

(** X4: in a viewport of at least two cells each way, [constrain] is
    idempotent. *)
Theorem constrain_idempotent p :
  constrain prec emax tty (constrain prec emax tty p)
  = constrain prec emax tty p.
Proof. exact (constrain_stable p). Qed.

End Clamp.

(** ** Bounces *)

Section Bounces.

Variables prec emax : Z.
Variable tty : tty_ctx_t.

(** The velocity after a step, by the axis that was reflected. *)
Lemma entity_move_delta_axis e :
  delta (entity_move prec emax tty e)
  = match reflected_axis prec emax tty e with
    | Some AxisX => mk_vec2 (fneg (x (delta e))) (y (delta e))
    | Some AxisY => mk_vec2 (x (delta e)) (fneg (y (delta e)))
    | None => delta e
    end.
Proof.
  rewrite entity_move_delta. unfold reflected_axis, reflect.
  destruct (collision prec emax tty (new_pos_of prec emax e)).
  - destruct (collision_x prec emax tty (x (new_pos_of prec emax e)));
      reflexivity.
  - destruct (collision prec emax tty (new_end_of prec emax e));
      [ | reflexivity ].
    destruct (collision_x prec emax tty (x (new_end_of prec emax e)));
      reflexivity.
Qed.

(** X5: two consecutive calls to [entity_move] that reflect the same axis
    give back the velocity the entity started with. *)
Theorem double_reflection_restores_velocity e a :
  reflected_axis prec emax tty e = Some a ->
  reflected_axis prec emax tty (entity_move prec emax tty e) = Some a ->
  delta (entity_move prec emax tty (entity_move prec emax tty e)) = delta e.
Proof.
  intros H1 H2.
  rewrite (entity_move_delta_axis (entity_move prec emax tty e)), H2.
  rewrite (entity_move_delta_axis e), H1.
  destruct e as [p [dx dy] s]. destruct a; simpl;
    rewrite fneg_involutive; reflexivity.
Qed.

(** X6: over any number of calls to [entity_move] the size stays the same
    and both velocity components keep their magnitude. *)
Theorem steps_keep_size_and_speed n e :
  size (steps prec emax tty n e) = size e
  /\ fabs (x (delta (steps prec emax tty n e))) = fabs (x (delta e))
  /\ fabs (y (delta (steps prec emax tty n e))) = fabs (y (delta e)).
Proof.
  induction n as [ | n [IHs [IHx IHy]] ]; [ repeat split | ].
  unfold steps in *. simpl.
  set (e' := Nat.iter n (entity_move prec emax tty) e) in *.
  rewrite entity_move_size, entity_move_delta_axis.
  split; [ exact IHs | ].
  destruct (reflected_axis prec emax tty e') as [ [ | ] | ]; simpl;
    rewrite ?fabs_fneg; split; assumption.
Qed.

Hypothesis Hprec : 53 <= prec.
Hypothesis Hemax : 1024 <= emax.

Lemma fadd_zero_r v z :
  is_zero z = true -> is_zero v = false -> fadd prec emax v z = v.
Proof.
  destruct z as [ sz | | | ]; try discriminate.
  destruct v as [ sv | sv | | sv mv ev ]; try discriminate; reflexivity.
Qed.

(** A zero coordinate touches the wall at [1]. *)
Lemma zero_collides v :
  is_zero v = true -> fge (of_int prec emax 1) v = true.
Proof.
  destruct v as [ s | | | ]; try discriminate. intros _.
  rewrite (of_int_1 prec emax Hprec Hemax). reflexivity.
Qed.

Lemma no_collision_not_zero p :
  collision prec emax tty p = false ->
  is_zero (x p) = false /\ is_zero (y p) = false.
Proof.
  unfold collision, collision_x, collision_y. intros H.
  apply orb_false_iff in H. destruct H as [Hx Hy].
  apply orb_false_iff in Hx. apply orb_false_iff in Hy.
  destruct Hx as [Hx _], Hy as [Hy _]. split.
  - destruct (is_zero (x p)) eqn:Z; [ | reflexivity ].
    rewrite (zero_collides _ Z) in Hx. discriminate.
  - destruct (is_zero (y p)) eqn:Z; [ | reflexivity ].
    rewrite (zero_collides _ Z) in Hy. discriminate.
Qed.

(** X7: an entity with zero velocity whose position and far corner touch
    no wall is left exactly as it is by [entity_move]. *)
Theorem entity_at_rest_stays e :
  is_zero (x (delta e)) = true -> is_zero (y (delta e)) = true ->
  collision prec emax tty (pos e) = false ->
  collision prec emax tty (vec2_add prec emax (pos e) (size e)) = false ->
  entity_move prec emax tty e = e.
Proof.
  intros Zx Zy Hp He.
  destruct (no_collision_not_zero _ Hp) as [Px Py].
  destruct (no_collision_not_zero _ He) as [Ex Ey].
  destruct e as [[px py] [dx dy] [sx sy]]. simpl in *.
  unfold entity_move, vec2_add. simpl.
  rewrite (fadd_zero_r px dx), (fadd_zero_r py dy),
    (fadd_zero_r (fadd prec emax px sx) dx),
    (fadd_zero_r (fadd prec emax py sy) dy) by assumption.
  unfold vec2_add in He. simpl in He. rewrite Hp, He. reflexivity.
Qed.

Hypothesis Htty : tty_wf tty.
Hypothesis Hwidth : 2 <= DISPLAY_WIDTH tty.

Lemma display_width_in_range : 2 <= DISPLAY_WIDTH tty <= 65535.
Proof. destruct Htty as [Hr Hc]. unfold DISPLAY_WIDTH in *. lia. Qed.

(** The clamp at the two walls of the x axis. *)
Lemma constrain_x_left v :
  fge (of_int prec emax 1) v = true ->
  constrain_x prec emax tty v = of_int prec emax 1.
Proof.
  intros Hleft. pose proof display_width_in_range as Hw.
  unfold constrain_x.
  destruct (flt v (of_int prec emax 1)) eqn:Hlt; [ reflexivity | ].
  unfold fge in Hleft. change (SFleb ?a ?b) with (fle a b) in Hleft.
  rewrite fle_flt_or_eq, Hlt, orb_false_l in Hleft.
  rewrite (of_int_1 prec emax Hprec Hemax) in Hleft.
  apply SFeqb_finite in Hleft.
  rewrite <- (of_int_1 prec emax Hprec Hemax) in Hleft. rewrite Hleft.
  destruct (one_in_bounds prec emax Hprec Hemax _ Hw) as [_ ->].
  reflexivity.
Qed.

Lemma constrain_x_right v :
  fge v (of_int prec emax (DISPLAY_WIDTH tty)) = true ->
  constrain_x prec emax tty v = of_int prec emax (DISPLAY_WIDTH tty - 1).
Proof.
  intros Hright. pose proof display_width_in_range as Hw.
  unfold constrain_x. rewrite Hright.
  destruct (flt v (of_int prec emax 1)) eqn:Hlt; [ | reflexivity ].
  exfalso. unfold fge in Hright.
  pose proof (fle_flt_trans _ _ _ Hright Hlt) as F.
  rewrite (fle_not_flt (of_int prec emax 1)
             (of_int prec emax (DISPLAY_WIDTH tty))) in F
    by (apply of_int_fle; lia).
  discriminate.
Qed.

(** X9: when the tentative position touches no wall and the tentative far
    corner reaches the right wall ([x >= DISPLAY_WIDTH]), the far corner is
    put at [DISPLAY_WIDTH - 1], the position at [DISPLAY_WIDTH - 1] minus
    the width, and the x velocity is negated, the y velocity kept. *)
Theorem bounce_off_right_wall e :
  collision prec emax tty (new_pos_of prec emax e) = false ->
  fge (x (new_end_of prec emax e)) (of_int prec emax (DISPLAY_WIDTH tty))
  = true ->
  x (pos (entity_move prec emax tty e))
  = fsub prec emax (of_int prec emax (DISPLAY_WIDTH tty - 1)) (x (size e))
  /\ delta (entity_move prec emax tty e)
     = mk_vec2 (fneg (x (delta e))) (y (delta e)).
Proof.
  intros Hfree Hright.
  assert (Hcx : collision_x prec emax tty (x (new_end_of prec emax e)) = true)
    by (unfold collision_x; rewrite Hright; apply orb_true_r).
  assert (Hc : collision prec emax tty (new_end_of prec emax e) = true)
    by (unfold collision; rewrite Hcx; reflexivity).
  rewrite entity_move_pos, entity_move_delta, Hfree, Hc. unfold reflect.
  rewrite Hcx. split; [ | reflexivity ].
  change (x (vec2_sub prec emax
               (constrain prec emax tty (new_end_of prec emax e)) (size e)))
    with (fsub prec emax
            (constrain_x prec emax tty (x (new_end_of prec emax e)))
            (x (size e))).
  now rewrite constrain_x_right.
Qed.

End Bounces.

(** X8: in a terminal whose viewport is at least two cells wide
    ([2 <= DISPLAY_WIDTH], that is at least three columns), with a format
    at least as wide as binary64 and terminal dimensions that
    [set_dimensions] can store: when the tentative position reaches the
    left wall ([x <= 1]), the entity is put on column 1 and the x velocity
    is negated, the y velocity kept.  In a narrower viewport the clamp on
    the right wall takes over: see [bounce_in_one_cell_viewport]. *)
Theorem bounce_off_left_wall prec emax tty :
  53 <= prec -> 1024 <= emax -> tty_wf tty -> 2 <= DISPLAY_WIDTH tty ->
  forall e,
  fge (of_int prec emax 1) (x (new_pos_of prec emax e)) = true ->
  x (pos (entity_move prec emax tty e)) = of_int prec emax 1
  /\ delta (entity_move prec emax tty e)
     = mk_vec2 (fneg (x (delta e))) (y (delta e)).
Proof.
  intros Hprec Hemax Htty Hwidth e Hleft.
  assert (Hcx : collision_x prec emax tty (x (new_pos_of prec emax e)) = true)
    by (unfold collision_x; rewrite Hleft; reflexivity).
  assert (Hc : collision prec emax tty (new_pos_of prec emax e) = true)
    by (unfold collision; rewrite Hcx; reflexivity).
  rewrite entity_move_pos, entity_move_delta, Hc. unfold reflect.
  rewrite Hcx. split; [ | reflexivity ].
  change (x (constrain prec emax tty (new_pos_of prec emax e)))
    with (constrain_x prec emax tty (x (new_pos_of prec emax e))).
  now apply constrain_x_left.
Qed.

(** The width is needed: in a terminal of two columns ([DISPLAY_WIDTH = 1])
    column 1 is the left and the right wall at once, and an entity whose
    tentative position is on column 1 is put on column
    [DISPLAY_WIDTH - 1 = 0]. *)
Example bounce_in_one_cell_viewport :
  tty_wf tty_2x24
  /\ DISPLAY_WIDTH tty_2x24 = 1
  /\ x (new_pos_of x87_prec x87_emax entity_onto_column_1) = x87_int 1
  /\ fge (x87_int 1) (x (new_pos_of x87_prec x87_emax entity_onto_column_1))
     = true
  /\ x (pos (entity_move x87_prec x87_emax tty_2x24 entity_onto_column_1))
     = x87_int 0.
Proof.
  split; [ unfold tty_wf; simpl; lia | ].
  split; [ reflexivity | ].
  split; [ vm_compute; reflexivity | ].
  split; vm_compute; reflexivity.
Qed.

(** ** More on the command interpreter *)

Section Interpreter.

Variables prec emax : Z.
Variable tty : tty_ctx_t.

Lemma handle_command_resize_s e :
  handle_command prec emax tty (key "s") RESIZE e
  = (RESIZE,
     if size_above_min prec emax (size e)
     then mk_entity (pos e) (delta e) (shrunk_size prec emax e)
     else e).
Proof.
  unfold handle_command, size_above_min, shrunk_size.
  change (key "s" =? key "q") with false.
  change (key "s" =? key "n") with false.
  change (key "s" =? key "w") with false.
  change (key "s" =? key "s") with true. cbv iota.
  destruct (fgt (x (size e)) (of_int prec emax MIN_ENTITY_WIDTH)
            && fgt (y (size e)) (of_int prec emax MIN_ENTITY_HEIGHT));
    reflexivity.
Qed.

(** The entity after [handle_command]: the overrides [q] and [n] leave it
    alone, as every key does outside Resize and Speed mode. *)
Lemma handle_command_entity c command e :
  snd (handle_command prec emax tty c command e)
  = match command with
    | RESIZE =>
        if c =? key "w" then
          if size_below_half prec emax tty (size e)
          then mk_entity (pos e) (delta e) (grown_size prec emax e) else e
        else if c =? key "s" then
          if size_above_min prec emax (size e)
          then mk_entity (pos e) (delta e) (shrunk_size prec emax e) else e
        else e
    | SPEED =>
        if c =? key "w" then
          if delta_below_extent prec emax tty (delta e)
          then mk_entity (pos e) (doubled_delta prec emax e) (size e) else e
        else if c =? key "s" then
          if delta_above_min prec emax (delta e)
          then mk_entity (pos e)
                 (mk_vec2 (halve_component prec emax (x (delta e)))
                          (halve_component prec emax (y (delta e))))
                 (size e)
          else e
        else e
    | _ => e
    end.
Proof.
  unfold handle_command.
  destruct (Z.eqb_spec c (key "q")) as [ -> | Hq ];
    [ destruct command; reflexivity | ].
  destruct (Z.eqb_spec c (key "n")) as [ -> | Hn ];
    [ destruct command; reflexivity | ].
  unfold size_below_half, size_above_min, delta_below_extent, delta_above_min,
    grown_size, shrunk_size, doubled_delta, double_component, halve_component.
  destruct command; try reflexivity.
  - destruct (c =? key "r"); [ reflexivity | ].
    destruct (c =? key "s"); reflexivity.
  - destruct (c =? key "w"); [ destruct (_ && _); reflexivity | ].
    destruct (c =? key "s"); [ destruct (_ && _); reflexivity | reflexivity ].
  - destruct (c =? key "w"); [ destruct (_ && _); reflexivity | ].
    destruct (c =? key "s"); [ destruct (_ && _); reflexivity | reflexivity ].
Qed.

(** X10: a character that is none of [q], [n], [r], [s], [w] changes
    neither the mode nor the entity, in every mode. *)
Theorem unrecognised_key_ignored c command e :
  unrecognised c ->
  handle_command prec emax tty c command e = (command, e).
Proof.
  intros [Hq [Hn [Hr [Hs Hw]]]]. now apply handle_command_other_key.
Qed.

(** X11: [handle_command] never changes the position; it changes the size
    only in Resize mode and the velocity only in Speed mode. *)
Theorem handle_command_frame c command e :
  pos (snd (handle_command prec emax tty c command e)) = pos e
  /\ (size (snd (handle_command prec emax tty c command e)) = size e
      \/ command = RESIZE)
  /\ (delta (snd (handle_command prec emax tty c command e)) = delta e
      \/ command = SPEED).
Proof.
  rewrite handle_command_entity.
  destruct command; auto;
    destruct (c =? key "w"); try (destruct (_ : bool); auto);
    destruct (c =? key "s"); try (destruct (_ : bool); auto); auto.
Qed.

(** X12: the only mode changes are: [q] to [QUIT], [n] to [NORMAL], and from
    [NORMAL], [r] to [RESIZE] and [s] to [SPEED]; in particular Resize and
    Speed mode are entered from [NORMAL] only. *)
Theorem mode_transitions c command e command' :
  fst (handle_command prec emax tty c command e) = command' ->
  command' = command
  \/ (command' = QUIT /\ c = key "q")
  \/ (command' = NORMAL /\ c = key "n")
  \/ (command = NORMAL /\ command' = RESIZE /\ c = key "r")
  \/ (command = NORMAL /\ command' = SPEED /\ c = key "s").
Proof.
  unfold handle_command.
  destruct (Z.eqb_spec c (key "q")) as [ -> | Hq ];
    [ simpl; intros <-; auto | ].
  destruct (Z.eqb_spec c (key "n")) as [ -> | Hn ];
    [ simpl; intros <-; auto | ].
  destruct command.
  - destruct (Z.eqb_spec c (key "r")) as [ -> | Hr ];
      [ simpl; intros <-; auto 10 | ].
    destruct (Z.eqb_spec c (key "s")) as [ -> | Hs ];
      simpl; intros <-; auto 10.
  - destruct (c =? key "w"); [ destruct (_ && _); simpl; intros <-; auto | ].
    destruct (c =? key "s"); [ destruct (_ && _) | ]; simpl; intros <-; auto.
  - destruct (c =? key "w"); [ destruct (_ && _); simpl; intros <-; auto | ].
    destruct (c =? key "s"); [ destruct (_ && _) | ]; simpl; intros <-; auto.
  - simpl. intros <-. auto.
Qed.

Hypothesis Hprec : 53 <= prec.
Hypothesis Hemax : 1024 <= emax.

(** Taking one cell from a whole number of cells is exact. *)
Lemma fsub_of_int_1 k :
  2 <= k <= 65535 ->
  fsub prec emax (of_int prec emax k) (of_int prec emax 1)
  = of_int prec emax (k - 1).
Proof.
  intros Hk. destruct k as [ | a | a ]; try lia.
  assert (Hb : exists b, Zpos a - 1 = Zpos b)
    by (exists (Z.to_pos (Zpos a - 1)); rewrite Z2Pos.id; lia).
  destruct Hb as [b Hb]. rewrite Hb.
  pose proof (digits2_pos_ushort a ltac:(lia)) as Hda.
  pose proof (digits2_pos_ushort b ltac:(lia)) as Hdb.
  rewrite (of_int_pos prec emax Hemax a), (of_int_1 prec emax Hprec Hemax),
    (of_int_pos prec emax Hemax b) by lia.
  unfold fsub, SFsub.
  rewrite Z.min_r by lia.
  rewrite !shl_align_le by lia. cbn [fst cond_Zopp].
  set (db := Zpos (digits2_pos b)) in *.
  set (da := Zpos (digits2_pos a)) in *.
  set (mb := Pos.shiftl b (Z.to_N (prec - db))).
  match goal with
  | |- binary_normalize _ _ ?m _ _ = _ =>
      replace m with (Zpos (Pos.shiftl mb (Z.to_N (db - 1))))
  end.
  2:{ unfold mb.
      rewrite !Zpos_shiftl, (Zpos_pow2_mantissa prec Hprec).
      rewrite !Z2N.id by lia.
      replace (1 - prec - (1 - prec)) with 0 by lia.
      replace (da - prec - (1 - prec)) with (da - 1) by lia.
      rewrite <- !Z.mul_assoc, <- !Z.pow_add_r by lia.
      replace (prec - db + (db - 1)) with (prec - 1) by lia.
      replace (prec - da + (da - 1)) with (prec - 1) by lia.
      rewrite Z.add_0_r, <- Hb. ring. }
  cbn [binary_normalize].
  replace (1 - prec) with (db - prec - Z.of_N (Z.to_N (db - 1)))
    by (rewrite Z2N.id; lia).
  rewrite binary_round_exact.
  - destruct (Z.leb_spec (db - prec) (emax - prec)); [ reflexivity | lia ].
  - unfold canonical_mantissa, mb. apply Z.eqb_eq.
    rewrite digits2_pos_shiftl, Z2N.id, fexp_eq by lia. fold db. lia.
Qed.

Hypothesis Htty : tty_wf tty.

(** X13: a size of whole cells, at least one cell each way, stays one under
    every command in every mode: width and height change together, by at
    most one cell, and never drop below one cell. *)
Theorem whole_size_invariant c command e kx ky :
  1 <= kx <= 65535 -> 1 <= ky <= 65535 ->
  size e = mk_vec2 (of_int prec emax kx) (of_int prec emax ky) ->
  exists d,
    size (snd (handle_command prec emax tty c command e))
    = mk_vec2 (of_int prec emax (kx + d)) (of_int prec emax (ky + d))
    /\ -1 <= d <= 1
    /\ 1 <= kx + d <= 65535 /\ 1 <= ky + d <= 65535.
Proof.
  intros Hkx Hky Hsize.
  assert (Hsame : exists d,
            size e = mk_vec2 (of_int prec emax (kx + d)) (of_int prec emax (ky + d))
            /\ -1 <= d <= 1
            /\ 1 <= kx + d <= 65535 /\ 1 <= ky + d <= 65535).
  { exists 0. rewrite Hsize, !Z.add_0_r. repeat split; lia. }
  rewrite handle_command_entity.
  destruct command; try exact Hsame.
  - destruct (c =? key "w").
    + destruct (size_below_half prec emax tty (size e)) eqn:G;
        [ | exact Hsame ].
      exists 1. cbn [size].
      destruct (max_entity_bounds tty Htty) as [Hw Hh].
      unfold size_below_half in G. rewrite Hsize in G. cbn [x y] in G.
      apply andb_true_iff in G. destruct G as [Gx Gy].
      apply (of_int_flt_inv prec emax Hprec Hemax) in Gx; try lia.
      apply (of_int_flt_inv prec emax Hprec Hemax) in Gy; try lia.
      unfold grown_size. rewrite Hsize. cbn [x y].
      rewrite !(fadd_of_int_1 prec emax Hprec Hemax) by lia.
      repeat split; lia.
    + destruct (c =? key "s"); [ | exact Hsame ].
      destruct (size_above_min prec emax (size e)) eqn:G;
        [ | exact Hsame ].
      exists (-1). cbn [size].
      unfold size_above_min, fgt in G. rewrite Hsize in G. cbn [x y] in G.
      apply andb_true_iff in G. destruct G as [Gx Gy].
      fold (flt (of_int prec emax MIN_ENTITY_WIDTH) (of_int prec emax kx)) in Gx.
      fold (flt (of_int prec emax MIN_ENTITY_HEIGHT) (of_int prec emax ky)) in Gy.
      unfold MIN_ENTITY_WIDTH in Gx. unfold MIN_ENTITY_HEIGHT in Gy.
      apply (of_int_flt_inv prec emax Hprec Hemax) in Gx; try lia.
      apply (of_int_flt_inv prec emax Hprec Hemax) in Gy; try lia.
      unfold shrunk_size. rewrite Hsize. cbn [x y].
      rewrite !fsub_of_int_1 by lia.
      replace (kx + -1) with (kx - 1) by lia.
      replace (ky + -1) with (ky - 1) by lia.
      repeat split; lia.
  - destruct (c =? key "w");
      [ destruct (delta_below_extent prec emax tty (delta e)); exact Hsame | ].
    destruct (c =? key "s"); [ | exact Hsame ].
    destruct (delta_above_min prec emax (delta e)); exact Hsame.
Qed.

(** X14: in Resize mode, for a size of whole cells that [w] does grow,
    [s] right after [w] gives back the entity. *)
Theorem resize_shrink_undoes_grow e kx ky :
  1 <= kx <= 65535 -> 1 <= ky <= 65535 ->
  size e = mk_vec2 (of_int prec emax kx) (of_int prec emax ky) ->
  size_below_half prec emax tty (size e) = true ->
  handle_command prec emax tty (key "s") RESIZE
    (snd (handle_command prec emax tty (key "w") RESIZE e))
  = (RESIZE, e).
Proof.
  intros Hkx Hky Hsize G.
  destruct (max_entity_bounds tty Htty) as [Hw Hh].
  rewrite handle_command_resize_w, G. cbn [snd].
  rewrite handle_command_resize_s. cbn [size pos delta].
  pose proof G as G'. unfold size_below_half in G'. rewrite Hsize in G'.
  cbn [x y] in G'. apply andb_true_iff in G'. destruct G' as [Gx Gy].
  apply (of_int_flt_inv prec emax Hprec Hemax) in Gx; try lia.
  apply (of_int_flt_inv prec emax Hprec Hemax) in Gy; try lia.
  assert (Hg : grown_size prec emax e
               = mk_vec2 (of_int prec emax (kx + 1)) (of_int prec emax (ky + 1))).
  { unfold grown_size. rewrite Hsize. cbn [x y].
    rewrite !(fadd_of_int_1 prec emax Hprec Hemax) by lia. reflexivity. }
  rewrite Hg. unfold size_above_min, fgt. cbn [x y].
  fold (flt (of_int prec emax MIN_ENTITY_WIDTH) (of_int prec emax (kx + 1))).
  fold (flt (of_int prec emax MIN_ENTITY_HEIGHT) (of_int prec emax (ky + 1))).
  unfold MIN_ENTITY_WIDTH, MIN_ENTITY_HEIGHT.
  rewrite !(of_int_flt prec emax Hprec Hemax) by lia. cbn [andb].
  unfold shrunk_size. cbn [size x y].
  rewrite !fsub_of_int_1 by lia.
  replace (kx + 1 - 1) with kx by lia. replace (ky + 1 - 1) with ky by lia.
  rewrite <- Hsize. destruct e; reflexivity.
Qed.

(** X15: in Resize mode, for a size of whole cells, more than one cell and
    at most the maximum each way, [w] right after [s] gives back the
    entity. *)
Theorem resize_grow_undoes_shrink e kx ky :
  2 <= kx <= MAX_ENTITY_WIDTH tty -> 2 <= ky <= MAX_ENTITY_HEIGHT tty ->
  size e = mk_vec2 (of_int prec emax kx) (of_int prec emax ky) ->
  handle_command prec emax tty (key "w") RESIZE
    (snd (handle_command prec emax tty (key "s") RESIZE e))
  = (RESIZE, e).
Proof.
  intros Hkx Hky Hsize.
  destruct (max_entity_bounds tty Htty) as [Hw Hh].
  rewrite handle_command_resize_s.
  assert (G : size_above_min prec emax (size e) = true).
  { unfold size_above_min, fgt. rewrite Hsize. cbn [x y].
    fold (flt (of_int prec emax MIN_ENTITY_WIDTH) (of_int prec emax kx)).
    fold (flt (of_int prec emax MIN_ENTITY_HEIGHT) (of_int prec emax ky)).
    unfold MIN_ENTITY_WIDTH, MIN_ENTITY_HEIGHT.
    rewrite !(of_int_flt prec emax Hprec Hemax) by lia. reflexivity. }
  rewrite G. cbn [snd].
  rewrite handle_command_resize_w. cbn [size pos delta].
  assert (Hs : shrunk_size prec emax e
               = mk_vec2 (of_int prec emax (kx - 1)) (of_int prec emax (ky - 1))).
  { unfold shrunk_size. rewrite Hsize. cbn [x y].
    rewrite !fsub_of_int_1 by lia. reflexivity. }
  rewrite Hs. unfold size_below_half. cbn [x y].
  rewrite !(of_int_flt prec emax Hprec Hemax) by lia. cbn [andb].
  unfold grown_size. cbn [size x y].
  rewrite !(fadd_of_int_1 prec emax Hprec Hemax) by lia.
  replace (kx - 1 + 1) with kx by lia. replace (ky - 1 + 1) with ky by lia.
  rewrite <- Hsize. destruct e; reflexivity.
Qed.

End Interpreter.

(** ** The loop of [main] *)

Section Loop.

Variables prec emax : Z.
Variable tty : tty_ctx_t.

(** The mode after [handle_command] is [QUIT] only on [q], or when the
    mode was [QUIT] already. *)
Lemma handle_command_quit_iff c command e :
  command <> QUIT ->
  (fst (handle_command prec emax tty c command e) = QUIT <-> c = key "q").
Proof.
  intros Hm. unfold handle_command.
  destruct (Z.eqb_spec c (key "q")) as [ -> | Hq ]; [ now split | ].
  split; [ | congruence ]. intros H. exfalso. revert H.
  destruct (c =? key "n"); [ discriminate | ].
  destruct command; try congruence.
  - destruct (c =? key "r"); [ discriminate | ].
    destruct (c =? key "s"); discriminate.
  - destruct (c =? key "w"); [ destruct (_ && _); discriminate | ].
    destruct (c =? key "s"); [ destruct (_ && _) | ]; discriminate.
  - destruct (c =? key "w"); [ destruct (_ && _); discriminate | ].
    destruct (c =? key "s"); [ destruct (_ && _) | ]; discriminate.
Qed.

Lemma main_loop_cons c rest command ball :
  main_loop prec emax tty (c :: rest) command ball
  = match fst (frame prec emax tty c command ball) with
    | QUIT => (QUIT, snd (frame prec emax tty c command ball))
    | m => main_loop prec emax tty rest m
             (snd (frame prec emax tty c command ball))
    end.
Proof.
  simpl. destruct (frame prec emax tty c command ball) as [m b].
  destruct m; reflexivity.
Qed.

(** X16: started in a mode other than [QUIT], the loop of [main] ends in
    mode [QUIT] exactly when [q] occurs in its input. *)
Theorem main_loop_quits_iff_q input command ball :
  command <> QUIT ->
  (fst (main_loop prec emax tty input command ball) = QUIT
   <-> In (key "q") input).
Proof.
  revert command ball.
  induction input as [ | c rest IH ]; intros command ball Hm.
  - simpl. split; [ congruence | contradiction ].
  - rewrite main_loop_cons.
    pose proof (handle_command_quit_iff c command
                  (entity_move prec emax tty ball) Hm) as Hq.
    unfold frame in *.
    destruct (fst (handle_command prec emax tty c command
                     (entity_move prec emax tty ball))) eqn:E.
    + rewrite IH by discriminate. simpl. split; [ auto | ].
      intros [ H | H ]; [ | exact H ].
      apply Hq in H. discriminate.
    + rewrite IH by discriminate. simpl. split; [ auto | ].
      intros [ H | H ]; [ | exact H ].
      apply Hq in H. discriminate.
    + rewrite IH by discriminate. simpl. split; [ auto | ].
      intros [ H | H ]; [ | exact H ].
      apply Hq in H. discriminate.
    + simpl. split; [ | reflexivity ]. intros _. left. now apply Hq.
Qed.

(** X17: the loop of [main] reads nothing after the first [q]: whatever
    follows it in the input does not change the outcome. *)
Theorem main_loop_ignores_input_after_q before after command ball :
  main_loop prec emax tty (before ++ key "q" :: after) command ball
  = main_loop prec emax tty (before ++ [key "q"]) command ball.
Proof.
  revert command ball.
  induction before as [ | c rest IH ]; intros command ball.
  - simpl app. rewrite !main_loop_cons. unfold frame.
    rewrite handle_command_q. reflexivity.
  - simpl app. rewrite !main_loop_cons.
    destruct (fst (frame prec emax tty c command ball));
      try apply IH; reflexivity.
Qed.

(** X18: while only unrecognised characters arrive (no key waiting
    included), the loop of [main] keeps the mode and just advances the
    entity, one [entity_move] per character read. *)
Theorem main_loop_without_keys input command ball :
  command <> QUIT ->
  Forall unrecognised input ->
  main_loop prec emax tty input command ball
  = (command, steps prec emax tty (length input) ball).
Proof.
  intros Hm Hin. revert ball.
  induction Hin as [ | c rest [Hq [Hn [Hr [Hs Hw]]]] Hrest IH ]; intros ball.
  - reflexivity.
  - rewrite main_loop_cons. unfold frame.
    rewrite handle_command_other_key by assumption. cbn [fst snd].
    destruct command; try congruence;
      rewrite IH; unfold steps; simpl length;
      rewrite Nat.iter_succ_r; reflexivity.
Qed.

End Loop.

(** ** Vector primitives *)

Section Vectors.

Variables prec emax : Z.

Lemma fsub_fadd_fneg a b : fsub prec emax a b = fadd prec emax a (fneg b).
Proof.
  unfold fsub, fadd, fneg.
  destruct a as [ sa | sa | | sa ma ea ], b as [ sb | sb | | sb mb eb ];
    try reflexivity;
    try (destruct sa, sb; reflexivity).
Qed.

Lemma fmul_fneg_fneg v : fmul prec emax (fneg v) (fneg v) = fmul prec emax v v.
Proof.
  unfold fmul, fneg. destruct v as [ s | s | | s m e ]; try reflexivity;
    destruct s; reflexivity.
Qed.

End Vectors.

(** ** Integers in the format *)

Section Integers.

Variables prec emax : Z.
Hypothesis Hprec : 53 <= prec.
Hypothesis Hemax : 1024 <= emax.

Lemma digits2_pos_int n : Zpos n <= 2 ^ 31 -> Zpos (digits2_pos n) <= 32.
Proof.
  intros Hn. pose proof (digits2_pos_lower n) as Hl.
  destruct (Z.le_gt_cases (Zpos (digits2_pos n)) 32) as [ H | H ];
    [ exact H | ].
  assert (2 ^ 32 <= 2 ^ (Zpos (digits2_pos n) - 1))
    by (apply Z.pow_le_mono_r; lia).
  change (2 ^ 32) with 4294967296 in *. change (2 ^ 31) with 2147483648 in *.
  lia.
Qed.

Lemma of_int_pos_int n :
  Zpos n <= 2 ^ 31 ->
  of_int prec emax (Zpos n)
  = S754_finite false
      (Pos.shiftl n (Z.to_N (prec - Zpos (digits2_pos n))))
      (Zpos (digits2_pos n) - prec).
Proof.
  intros Hn. pose proof (digits2_pos_int n Hn).
  apply (of_int_pos prec emax Hemax); lia.
Qed.

Lemma of_int_neg_int n :
  Zpos n <= 2 ^ 31 ->
  of_int prec emax (Zneg n)
  = S754_finite true
      (Pos.shiftl n (Z.to_N (prec - Zpos (digits2_pos n))))
      (Zpos (digits2_pos n) - prec).
Proof.
  intros Hn. pose proof (digits2_pos_int n Hn).
  apply (of_int_neg prec emax Hemax); lia.
Qed.

(** The order of the mantissa-exponent pairs of two converted positive
    integers is the order of the integers. *)
Lemma of_int_pair_compare a b :
  Zpos a <= 2 ^ 31 -> Zpos b <= 2 ^ 31 ->
  match Zpos (digits2_pos a) - prec ?= Zpos (digits2_pos b) - prec with
  | Lt => Lt
  | Gt => Gt
  | Eq => (Pos.shiftl a (Z.to_N (prec - Zpos (digits2_pos a)))
           ?= Pos.shiftl b (Z.to_N (prec - Zpos (digits2_pos b))))%positive
  end = (a ?= b)%positive.
Proof.
  intros Ha Hb.
  pose proof (digits2_pos_int a Ha) as Hda.
  pose proof (digits2_pos_int b Hb) as Hdb.
  rewrite (Pos2Z.inj_compare a b).
  destruct (Z.compare_spec (Zpos (digits2_pos a) - prec)
              (Zpos (digits2_pos b) - prec)) as [ E | E | E ].
  - assert (Ed : digits2_pos a = digits2_pos b) by lia. rewrite Ed.
    rewrite (Pos2Z.inj_compare (Pos.shiftl a _) (Pos.shiftl b _)).
    rewrite !Zpos_shiftl.
    symmetry. apply Zmult_compare_compat_r.
    apply Z.lt_gt, Z.pow_pos_nonneg; lia.
  - symmetry. apply Z.compare_lt_iff.
    destruct (Z.lt_ge_cases (Zpos a) (Zpos b)) as [ H | H ]; [ exact H | ].
    pose proof (digits2_pos_mono b a ltac:(lia)). lia.
  - symmetry. apply Z.compare_gt_iff.
    destruct (Z.lt_ge_cases (Zpos b) (Zpos a)) as [ H | H ]; [ exact H | ].
    pose proof (digits2_pos_mono a b ltac:(lia)). lia.
Qed.

(** The conversion of [int]s to [f64] keeps their order: comparing two
    converted [int]s gives the comparison of the [int]s. *)
Lemma of_int_SFcompare a b :
  INT_MIN <= a <= INT_MAX -> INT_MIN <= b <= INT_MAX ->
  SFcompare (of_int prec emax a) (of_int prec emax b) = Some (a ?= b).
Proof.
  unfold INT_MIN, INT_MAX. intros Ha Hb.
  change (2 ^ 31) with 2147483648 in *.
  destruct a as [ | a | a ], b as [ | b | b ];
    rewrite ?of_int_0, ?of_int_pos_int, ?of_int_neg_int
      by (change (2 ^ 31) with 2147483648; lia);
    try reflexivity.
  - unfold SFcompare. f_equal.
    change (Pos.compare_cont Eq ?p ?q) with (p ?= q)%positive.
    rewrite of_int_pair_compare by (change (2 ^ 31) with 2147483648; lia).
    reflexivity.
  - unfold SFcompare. f_equal.
    change (Pos.compare_cont Eq ?p ?q) with (p ?= q)%positive.
    pose proof (of_int_pair_compare a b
                  ltac:(change (2 ^ 31) with 2147483648; lia)
                  ltac:(change (2 ^ 31) with 2147483648; lia)) as H.
    change (Zneg a ?= Zneg b) with (CompOpp (a ?= b)%positive).
    rewrite <- H.
    destruct (Zpos (digits2_pos a) - prec ?= Zpos (digits2_pos b) - prec);
      reflexivity.
Qed.

Lemma of_int_flt_iff a b :
  INT_MIN <= a <= INT_MAX -> INT_MIN <= b <= INT_MAX ->
  flt (of_int prec emax a) (of_int prec emax b) = (a <? b).
Proof.
  intros Ha Hb. unfold flt, SFltb. rewrite of_int_SFcompare by assumption.
  unfold Z.ltb. destruct (a ?= b); reflexivity.
Qed.

Lemma of_int_fle_iff a b :
  INT_MIN <= a <= INT_MAX -> INT_MIN <= b <= INT_MAX ->
  fle (of_int prec emax a) (of_int prec emax b) = (a <=? b).
Proof.
  intros Ha Hb. unfold fle, SFleb. rewrite of_int_SFcompare by assumption.
  unfold Z.leb. destruct (a ?= b); reflexivity.
Qed.

(** Converting an [int] to [f64] and back gives the [int]. *)
Lemma to_int_of_int n :
  INT_MIN <= n <= INT_MAX -> to_int (of_int prec emax n) = Some n.
Proof.
  unfold INT_MIN, INT_MAX. intros Hn.
  assert (Hshift : forall p, Zpos p <= 2 ^ 31 ->
            Z.shiftl (Zpos (Pos.shiftl p (Z.to_N (prec - Zpos (digits2_pos p)))))
              (Zpos (digits2_pos p) - prec) = Zpos p).
  { intros p Hp. pose proof (digits2_pos_int p Hp) as Hd.
    rewrite Zpos_shiftl, Z2N.id by lia.
    replace (Zpos (digits2_pos p) - prec)
      with (- (prec - Zpos (digits2_pos p))) by lia.
    rewrite <- Z.shiftr_opp_r, Z.opp_involutive.
    rewrite Z.shiftr_div_pow2 by lia.
    apply Z.div_mul. apply Z.pow_nonzero; lia. }
  destruct n as [ | p | p ].
  - reflexivity.
  - rewrite of_int_pos_int by (change (2 ^ 31) with 2147483648; lia).
    unfold to_int, f64_trunc. cbn [cond_Zopp].
    rewrite Hshift by (change (2 ^ 31) with 2147483648; lia).
    unfold INT_MIN, INT_MAX.
    destruct (Z.leb_spec (-2147483648) (Zpos p)); [ | lia ].
    destruct (Z.leb_spec (Zpos p) 2147483647); [ reflexivity | lia ].
  - rewrite of_int_neg_int by (change (2 ^ 31) with 2147483648; lia).
    unfold to_int, f64_trunc. cbn [cond_Zopp].
    rewrite Hshift by (change (2 ^ 31) with 2147483648; lia).
    unfold INT_MIN, INT_MAX. change (- Zpos p) with (Zneg p).
    destruct (Z.leb_spec (-2147483648) (Zneg p)); [ | lia ].
    destruct (Z.leb_spec (Zneg p) 2147483647); [ reflexivity | lia ].
Qed.

(** The sum of two positive [int]s is exact: adding the converted [int]s
    gives the converted sum. *)
Lemma fadd_of_int a b :
  1 <= a -> 1 <= b -> a + b <= INT_MAX ->
  fadd prec emax (of_int prec emax a) (of_int prec emax b)
  = of_int prec emax (a + b).
Proof.
  unfold INT_MAX. intros Ha Hb Hab.
  destruct a as [ | a | a ]; try lia. destruct b as [ | b | b ]; try lia.
  change (Zpos a + Zpos b) with (Zpos (a + b)).
  assert (H31 : 2 ^ 31 = 2147483648) by reflexivity.
  pose proof (digits2_pos_int a ltac:(lia)) as Hda.
  pose proof (digits2_pos_int b ltac:(lia)) as Hdb.
  pose proof (digits2_pos_int (a + b) ltac:(lia)) as Hdc.
  pose proof (digits2_pos_mono a (a + b) ltac:(lia)) as Hac.
  pose proof (digits2_pos_mono b (a + b) ltac:(lia)) as Hbc.
  rewrite (of_int_pos_int a), (of_int_pos_int b), (of_int_pos_int (a + b))
    by lia.
  unfold fadd, SFadd.
  set (da := Zpos (digits2_pos a)) in *.
  set (db := Zpos (digits2_pos b)) in *.
  set (dc := Zpos (digits2_pos (a + b))) in *.
  set (ez := Z.min (da - prec) (db - prec)).
  assert (Hez : ez <= da - prec /\ ez <= db - prec
                /\ (ez = da - prec \/ ez = db - prec)) by (unfold ez; lia).
  rewrite !shl_align_le by lia. cbn [fst cond_Zopp].
  change (Zpos ?p + Zpos ?q) with (Zpos (p + q)).
  cbn [binary_normalize].
  set (mc := Pos.shiftl (a + b) (Z.to_N (prec - dc))).
  replace (_ + _)%positive with (Pos.shiftl mc (Z.to_N (dc - prec - ez))).
  2:{ apply Pos2Z.inj. unfold mc.
      rewrite Pos2Z.inj_add, !Zpos_shiftl.
      rewrite !Z2N.id by lia.
      rewrite <- !Z.mul_assoc, <- !Z.pow_add_r by lia.
      replace (prec - dc + (dc - prec - ez)) with (- ez) by lia.
      replace (prec - da + (da - prec - ez)) with (- ez) by lia.
      replace (prec - db + (db - prec - ez)) with (- ez) by lia.
      rewrite Pos2Z.inj_add. ring. }
  replace ez with (dc - prec - Z.of_N (Z.to_N (dc - prec - ez))) at 2
    by (rewrite Z2N.id; lia).
  rewrite binary_round_exact.
  - destruct (Z.leb_spec (dc - prec) (emax - prec)); [ reflexivity | lia ].
  - unfold canonical_mantissa, mc. apply Z.eqb_eq.
    rewrite digits2_pos_shiftl, Z2N.id, fexp_eq by lia. fold dc. lia.
Qed.

End Integers.

(** ** The counting loop *)

Lemma flat_map_after_map {A B C : Type} (f : B -> list C) (h : A -> B) l :
  flat_map f (map h l) = flat_map (fun a => f (h a)) l.
Proof.
  induction l as [ | a l IH ]; simpl; [ reflexivity | ].
  rewrite IH. reflexivity.
Qed.

Section ForLoop.

Context {A : Type}.
Variable cond : Z -> bool.

(** What a finished loop emitted satisfies what every body's output
    satisfies. *)
Lemma for_loop_Forall (P : A -> Prop) (body : Z -> option (list A)) :
  (forall i out, INT_MIN <= i <= INT_MAX -> body i = Some out -> Forall P out) ->
  forall fuel i out,
    INT_MIN <= i <= INT_MAX ->
    for_loop fuel i cond body = Some out -> Forall P out.
Proof.
  intros Hbody. induction fuel as [ | fuel IH ]; intros i out Hi; simpl.
  - discriminate.
  - destruct (cond i); [ | intros [= <-]; constructor ].
    destruct (body i) as [ o | ] eqn:Hb; [ | discriminate ].
    destruct (Z.eqb_spec i INT_MAX) as [ E | E ]; [ discriminate | ].
    destruct (for_loop fuel (i + 1) cond body) as [ rest | ] eqn:Hr;
      [ | discriminate ].
    intros [= <-]. apply Forall_app. split.
    + exact (Hbody i o Hi Hb).
    + apply (IH (i + 1)); [ lia | exact Hr ].
Qed.

(** A loop whose condition fails at [n] finishes, given fuel for the
    iterations up to [n]. *)
Lemma for_loop_finishes (body : Z -> option (list A)) n :
  cond n = false -> n <= INT_MAX ->
  forall fuel i,
    i <= n ->
    (forall j, i <= j < n -> exists out, body j = Some out) ->
    (Z.to_nat (n - i) < fuel)%nat ->
    exists out, for_loop fuel i cond body = Some out.
Proof.
  intros Hn Hmax. induction fuel as [ | fuel IH ]; intros i Hi Hbody Hfuel.
  - lia.
  - simpl. destruct (cond i) eqn:Hc; [ | eauto ].
    assert (i < n) by (destruct (Z.eq_dec i n); [ congruence | lia ]).
    destruct (Hbody i ltac:(lia)) as [o ->].
    destruct (Z.eqb_spec i INT_MAX) as [ E | E ]; [ lia | ].
    destruct (IH (i + 1)) as [rest ->]; [ lia | | lia | eauto ].
    intros j Hj. apply Hbody. lia.
Qed.

(** More fuel does not change what a finished loop emitted. *)
Lemma for_loop_more_fuel (body body' : Z -> option (list A)) :
  (forall i out, body i = Some out -> body' i = Some out) ->
  forall fuel fuel' i out,
    (fuel <= fuel')%nat ->
    for_loop fuel i cond body = Some out ->
    for_loop fuel' i cond body' = Some out.
Proof.
  intros Hbody. induction fuel as [ | fuel IH ]; intros fuel' i out Hle;
    simpl; [ discriminate | ].
  destruct fuel' as [ | fuel' ]; [ lia | ]. simpl.
  destruct (cond i); [ | trivial ].
  destruct (body i) as [ o | ] eqn:Hb; [ | discriminate ].
  rewrite (Hbody i o Hb).
  destruct (i =? INT_MAX); [ discriminate | ].
  destruct (for_loop fuel (i + 1) cond body) as [ rest | ] eqn:Hr;
    [ | discriminate ].
  rewrite (IH fuel' (i + 1) rest ltac:(lia) Hr). trivial.
Qed.

(** A loop over [count] consecutive integers emits the bodies' outputs in
    order. *)
Lemma for_loop_range (body : Z -> option (list A)) (g : Z -> list A) :
  forall count fuel i,
    (count < fuel)%nat ->
    i + Z.of_nat count <= INT_MAX ->
    (forall k, (k < count)%nat ->
       cond (i + Z.of_nat k) = true
       /\ body (i + Z.of_nat k) = Some (g (i + Z.of_nat k))) ->
    cond (i + Z.of_nat count) = false ->
    for_loop fuel i cond body
    = Some (flat_map (fun k => g (i + Z.of_nat k)) (seq 0 count)).
Proof.
  induction count as [ | count IH ]; intros fuel i Hfuel Hmax Hbody Hend.
  - destruct fuel as [ | fuel ]; [ lia | ]. simpl.
    rewrite Z.add_0_r in Hend. rewrite Hend. reflexivity.
  - destruct fuel as [ | fuel ]; [ lia | ]. simpl for_loop.
    destruct (Hbody 0%nat ltac:(lia)) as [Hc Hb].
    rewrite Z.add_0_r in Hc, Hb. rewrite Hc, Hb.
    destruct (Z.eqb_spec i INT_MAX) as [ E | E ]; [ lia | ].
    rewrite (IH fuel (i + 1)).
    + simpl seq. simpl flat_map. rewrite Z.add_0_r. f_equal. f_equal.
      rewrite <- seq_shift, flat_map_after_map.
      apply flat_map_ext. intros k. f_equal. lia.
    + lia.
    + lia.
    + intros k Hk. destruct (Hbody (S k) ltac:(lia)) as [Hc' Hb'].
      replace (i + 1 + Z.of_nat k) with (i + Z.of_nat (S k)) by lia. auto.
    + replace (i + 1 + Z.of_nat count) with (i + Z.of_nat (S count)) by lia.
      exact Hend.
Qed.

End ForLoop.

(** ** Drawing *)

Lemma to_int_range v n : to_int v = Some n -> INT_MIN <= n <= INT_MAX.
Proof.
  unfold to_int. destruct (f64_trunc v) as [ m | ]; [ | discriminate ].
  destruct (Z.leb_spec INT_MIN m), (Z.leb_spec m INT_MAX); simpl;
    try discriminate.
  intros [= <-]. lia.
Qed.

Lemma flat_map_singleton {A B : Type} (f : A -> B) l :
  flat_map (fun a => [f a]) l = map f l.
Proof.
  induction l as [ | a l IH ]; simpl; [ reflexivity | ].
  rewrite IH. reflexivity.
Qed.

Section Drawing.

Variables prec emax : Z.
Variable tty : tty_ctx_t.
Hypothesis Hprec : 53 <= prec.
Hypothesis Hemax : 1024 <= emax.
Hypothesis Htty : tty_wf tty.

Lemma display_int_range :
  INT_MIN <= DISPLAY_WIDTH tty <= INT_MAX
  /\ INT_MIN <= DISPLAY_HEIGHT tty <= INT_MAX.
Proof.
  destruct Htty as [Hr Hc].
  unfold DISPLAY_WIDTH, DISPLAY_HEIGHT, INT_MIN, INT_MAX. lia.
Qed.

(** The out-of-bounds test on a cell is the test on its integers. *)
Lemma out_of_bounds_of_int i j :
  INT_MIN <= i <= INT_MAX -> INT_MIN <= j <= INT_MAX ->
  out_of_bounds prec emax tty (mk_vec2 (of_int prec emax i) (of_int prec emax j))
  = ((i <? 1) || (DISPLAY_WIDTH tty <=? i))
    || ((j <? 1) || (DISPLAY_HEIGHT tty <=? j)).
Proof.
  intros Hi Hj. destruct display_int_range as [Hw Hh].
  unfold out_of_bounds, out_of_bounds_x, out_of_bounds_y, fgt, fge. cbn [x y].
  fold (flt (of_int prec emax i) (of_int prec emax 1)).
  fold (flt (of_int prec emax j) (of_int prec emax 1)).
  fold (fle (of_int prec emax (DISPLAY_WIDTH tty)) (of_int prec emax i)).
  fold (fle (of_int prec emax (DISPLAY_HEIGHT tty)) (of_int prec emax j)).
  rewrite !(of_int_flt_iff prec emax Hprec Hemax),
    !(of_int_fle_iff prec emax Hprec Hemax)
    by (assumption || (unfold INT_MIN, INT_MAX; lia)).
  reflexivity.
Qed.

Lemma draw_cell_of_int i j :
  INT_MIN <= i <= INT_MAX -> INT_MIN <= j <= INT_MAX ->
  draw_cell (mk_vec2 (of_int prec emax i) (of_int prec emax j)) = Some (i, j).
Proof.
  intros Hi Hj. unfold draw_cell. cbn [x y].
  rewrite !(to_int_of_int prec emax Hprec Hemax) by assumption. reflexivity.
Qed.

(** X23: every cell [entity_draw] draws lies inside the viewport: column in
    [[1, DISPLAY_WIDTH)] and row in [[1, DISPLAY_HEIGHT)]; the row of the
    status line and the last column are never written. *)
Theorem entity_draw_inside_viewport fuel e cells :
  entity_draw prec emax tty fuel e = Some cells ->
  Forall (cell_in_viewport tty) cells.
Proof.
  unfold entity_draw.
  destruct (to_int (y (pos e))) as [ y0 | ] eqn:Hy; [ | discriminate ].
  apply to_int_range in Hy.
  apply for_loop_Forall; [ | exact Hy ].
  intros j row Hj.
  destruct (to_int (x (pos e))) as [ x0 | ] eqn:Hx; [ | discriminate ].
  apply to_int_range in Hx.
  apply for_loop_Forall; [ | exact Hx ].
  intros i out Hi.
  rewrite out_of_bounds_of_int, draw_cell_of_int by assumption.
  destruct (Z.ltb_spec i 1), (Z.leb_spec (DISPLAY_WIDTH tty) i),
    (Z.ltb_spec j 1), (Z.leb_spec (DISPLAY_HEIGHT tty) j); simpl;
    intros [= <-]; repeat constructor; simpl; lia.
Qed.

(** More fuel does not change what [entity_draw] drew. *)
Lemma entity_draw_more_fuel fuel fuel' e cells :
  (fuel <= fuel')%nat ->
  entity_draw prec emax tty fuel e = Some cells ->
  entity_draw prec emax tty fuel' e = Some cells.
Proof.
  intros Hle. unfold entity_draw.
  destruct (to_int (y (pos e))) as [ y0 | ]; [ | discriminate ].
  apply for_loop_more_fuel; [ | exact Hle ].
  intros j out.
  destruct (to_int (x (pos e))) as [ x0 | ]; [ | discriminate ].
  apply for_loop_more_fuel; [ | exact Hle ]. trivial.
Qed.

(** X24: [entity_draw] finishes: when the position converts to [int]s
    [(x0, y0)] and the far corner is at most [(bx, by)], it returns after at
    most [by - y0 + 1] rows of at most [bx - x0 + 1] cells, with one and the
    same result for every fuel that covers those. *)
Theorem entity_draw_finishes e x0 y0 bx by_ :
  to_int (x (pos e)) = Some x0 -> to_int (y (pos e)) = Some y0 ->
  INT_MIN <= bx <= INT_MAX -> INT_MIN <= by_ <= INT_MAX ->
  fle (fadd prec emax (x (pos e)) (x (size e))) (of_int prec emax bx) = true ->
  fle (fadd prec emax (y (pos e)) (y (size e))) (of_int prec emax by_) = true ->
  exists cells,
    forall fuel,
      (Z.to_nat (bx - x0) < fuel)%nat -> (Z.to_nat (by_ - y0) < fuel)%nat ->
      entity_draw prec emax tty fuel e = Some cells.
Proof.
  intros Hx Hy Hbx Hby Hfx Hfy.
  pose proof (to_int_range _ _ Hx) as Rx.
  pose proof (to_int_range _ _ Hy) as Ry.
  set (f0 := S (Nat.max (Z.to_nat (bx - x0)) (Z.to_nat (by_ - y0)))).
  assert (Hstop : forall far b n,
            INT_MIN <= b <= INT_MAX -> INT_MIN <= n <= INT_MAX -> b <= n ->
            fle far (of_int prec emax b) = true ->
            flt (of_int prec emax n) far = false).
  { intros far b n Hb Hn Hbn Hfar. apply fle_not_flt.
    apply (fle_trans _ (of_int prec emax b)); [ exact Hfar | ].
    rewrite (of_int_fle_iff prec emax Hprec Hemax) by assumption.
    apply Z.leb_le, Hbn. }
  assert (H0 : exists cells, entity_draw prec emax tty f0 e = Some cells).
  { unfold entity_draw. rewrite Hy.
    apply (for_loop_finishes _ _ (Z.max y0 by_)).
    - apply (Hstop _ by_); try lia; exact Hfy.
    - lia.
    - lia.
    - intros j Hj. rewrite Hx.
      apply (for_loop_finishes _ _ (Z.max x0 bx)).
      + apply (Hstop _ bx); try lia; exact Hfx.
      + lia.
      + lia.
      + intros i Hi.
        rewrite out_of_bounds_of_int, draw_cell_of_int by lia.
        destruct (_ || _); eauto.
      + unfold f0. lia.
    - unfold f0. lia. }
  destruct H0 as [cells H0]. exists cells. intros fuel Fx Fy.
  apply (entity_draw_more_fuel f0); [ unfold f0; lia | exact H0 ].
Qed.

(** X25: an entity of whole cells that lies inside the viewport, at column
    [kx] and row [ky] with [w] columns and [h] rows, is drawn as exactly
    its rectangle, row by row. *)
Theorem entity_draw_whole_cells fuel e kx ky w h :
  pos e = mk_vec2 (of_int prec emax kx) (of_int prec emax ky) ->
  size e = mk_vec2 (of_int prec emax (Z.of_nat w)) (of_int prec emax (Z.of_nat h)) ->
  (1 <= w)%nat -> (1 <= h)%nat ->
  1 <= kx -> kx + Z.of_nat w <= DISPLAY_WIDTH tty ->
  1 <= ky -> ky + Z.of_nat h <= DISPLAY_HEIGHT tty ->
  (w < fuel)%nat -> (h < fuel)%nat ->
  entity_draw prec emax tty fuel e = Some (rectangle kx ky w h).
Proof.
  intros Hpos Hsize Hw Hh Hkx Hkw Hky Hkh Fw Fh.
  destruct display_int_range as [Rw Rh].
  assert (Dw : DISPLAY_WIDTH tty <= 65535 /\ DISPLAY_HEIGHT tty <= 65535).
  { destruct Htty as [Hr Hc]. unfold DISPLAY_WIDTH, DISPLAY_HEIGHT. lia. }
  unfold entity_draw. rewrite Hpos, Hsize. cbn [x y].
  rewrite !(to_int_of_int prec emax Hprec Hemax)
    by (unfold INT_MIN, INT_MAX; lia).
  rewrite !(fadd_of_int prec emax Hprec Hemax)
    by (unfold INT_MAX; lia).
  unfold rectangle.
  apply (for_loop_range _ _
           (fun j => map (fun i => (kx + Z.of_nat i, j)) (seq 0 w)));
    try (unfold INT_MAX; lia).
  - intros k Hk. split.
    + rewrite (of_int_flt_iff prec emax Hprec Hemax)
        by (unfold INT_MIN, INT_MAX; lia).
      apply Z.ltb_lt. lia.
    + rewrite <- flat_map_singleton.
      apply (for_loop_range _ _ (fun i => [(i, ky + Z.of_nat k)]));
        try (unfold INT_MAX; lia).
      * intros k' Hk'. split.
        -- rewrite (of_int_flt_iff prec emax Hprec Hemax)
             by (unfold INT_MIN, INT_MAX; lia).
           apply Z.ltb_lt. lia.
        -- rewrite out_of_bounds_of_int, draw_cell_of_int
             by (unfold INT_MIN, INT_MAX; lia).
           destruct (Z.ltb_spec (kx + Z.of_nat k') 1); [ lia | ].
           destruct (Z.leb_spec (DISPLAY_WIDTH tty) (kx + Z.of_nat k'));
             [ lia | ].
           destruct (Z.ltb_spec (ky + Z.of_nat k) 1); [ lia | ].
           destruct (Z.leb_spec (DISPLAY_HEIGHT tty) (ky + Z.of_nat k));
             [ lia | ].
           reflexivity.
      * rewrite (of_int_flt_iff prec emax Hprec Hemax)
          by (unfold INT_MIN, INT_MAX; lia).
        apply Z.ltb_ge. lia.
  - rewrite (of_int_flt_iff prec emax Hprec Hemax)
      by (unfold INT_MIN, INT_MAX; lia).
    apply Z.ltb_ge. lia.
Qed.

End Drawing.

(** ** What a step and a command never do *)

Section Never.

Variables prec emax : Z.
Variable tty : tty_ctx_t.

Lemma fsub_not_nan a b :
  is_nan a = false -> is_finite b = true -> is_nan (fsub prec emax a b) = false.
Proof.
  intros Ha Hb. rewrite fsub_fadd_fneg. apply fadd_not_nan; [ exact Ha | ].
  destruct b; simpl in *; congruence.
Qed.

Lemma constrain_not_nan p :
  is_nan (x p) = false -> is_nan (y p) = false ->
  is_nan (x (constrain prec emax tty p)) = false
  /\ is_nan (y (constrain prec emax tty p)) = false.
Proof.
  intros Hx Hy. unfold constrain, constrain_x, constrain_y. cbn [x y].
  split.
  - destruct (flt (x p) _); [ apply of_int_not_nan | ].
    destruct (fge (x p) _); [ apply of_int_not_nan | exact Hx ].
  - destruct (flt (y p) _); [ apply of_int_not_nan | ].
    destruct (fge (y p) _); [ apply of_int_not_nan | exact Hy ].
Qed.

Lemma fneg_finite v : is_finite (fneg v) = is_finite v.
Proof. destruct v; reflexivity. Qed.

(** X26: [entity_move] never produces a NaN from an entity with finite
    components: the new position has no NaN coordinate, and velocity and
    size stay finite. *)
Theorem entity_move_no_nan e :
  entity_finite e = true ->
  is_nan (x (pos (entity_move prec emax tty e))) = false
  /\ is_nan (y (pos (entity_move prec emax tty e))) = false
  /\ vec2_finite (delta (entity_move prec emax tty e)) = true
  /\ vec2_finite (size (entity_move prec emax tty e)) = true.
Proof.
  intros Hfin.
  destruct (new_pos_not_nan prec emax e Hfin) as [Hpx Hpy].
  destruct (new_end_not_nan prec emax e Hfin) as [Hex Hey].
  destruct (entity_finite_fields e Hfin) as [_ [[Hdx Hdy] [Hsx Hsy]]].
  rewrite entity_move_pos, entity_move_size.
  assert (Hd : vec2_finite (delta (entity_move prec emax tty e)) = true).
  { rewrite entity_move_delta_axis. unfold vec2_finite.
    destruct (reflected_axis prec emax tty e) as [ [ | ] | ]; cbn [x y];
      rewrite ?fneg_finite, Hdx, Hdy; reflexivity. }
  assert (Hs : vec2_finite (size e) = true)
    by (unfold vec2_finite; rewrite Hsx, Hsy; reflexivity).
  destruct (collision prec emax tty (new_pos_of prec emax e)).
  - destruct (constrain_not_nan _ Hpx Hpy) as [Cx Cy]. auto.
  - destruct (collision prec emax tty (new_end_of prec emax e)).
    + destruct (constrain_not_nan _ Hex Hey) as [Cx Cy].
      unfold vec2_sub. cbn [x y].
      rewrite !fsub_not_nan by assumption. auto.
    + auto.
Qed.

Lemma binary_round_aux_nonneg sx mx ex lx :
  0 <= mx ->
  match binary_round_aux prec emax sx mx ex lx with
  | S754_zero s | S754_infinity s | S754_finite s _ _ => s = sx
  | S754_nan => False
  end.
Proof.
  intros H. unfold binary_round_aux.
  pose proof (shr_fexp_nonneg prec emax mx ex lx H) as H1.
  destruct (shr_fexp prec emax mx ex lx) as [mrs' e']. simpl in H1.
  pose proof (shr_fexp_nonneg prec emax _ e' loc_Exact
                (round_nearest_even_nonneg _ (loc_of_shr_record mrs') H1)) as H2.
  destruct (shr_fexp prec emax _ e' loc_Exact) as [mrs'' e'']. simpl in H2.
  destruct (shr_m mrs'') as [ | m | m ]; try reflexivity; try lia.
  destruct (e'' <=? emax - prec); reflexivity.
Qed.

Lemma SFdiv_core_nonneg m1 e1 m2 e2 :
  0 <= fst (fst (SFdiv_core_binary prec emax (Zpos m1) e1 (Zpos m2) e2)).
Proof.
  unfold SFdiv_core_binary.
  match goal with
  | |- context [Z.div_eucl ?a ?b] =>
      assert (Ha : 0 <= a);
      [ | pose proof (Z.div_pos a b Ha ltac:(lia)) as Hq;
          unfold Z.div in Hq; destruct (Z.div_eucl a b); exact Hq ]
  end.
  destruct (e1 - e2 - _) as [ | s | s ]; try lia.
  apply Z.shiftl_nonneg. lia.
Qed.

Hypothesis Hprec : 53 <= prec.
Hypothesis Hemax : 1024 <= emax.

(** Halving a number that is above zero gives a number that is not below
    zero. *)
Lemma halve_component_nonneg v :
  fgt v (of_int prec emax 0) = true ->
  fge (halve_component prec emax v) (of_int prec emax 0) = true.
Proof.
  rewrite of_int_0. unfold halve_component.
  rewrite (of_int_2 prec emax Hprec Hemax). unfold fdiv, SFdiv. intros Hv.
  destruct v as [ s | s | | s m e ]; try discriminate;
    destruct s; try discriminate.
  - reflexivity.
  - pose proof (SFdiv_core_nonneg m e (pow2_mantissa prec) (2 - prec)) as Hq.
    destruct (SFdiv_core_binary prec emax (Zpos m) e
                (Zpos (pow2_mantissa prec)) (2 - prec)) as [[mz ez] lz].
    simpl in Hq.
    pose proof (binary_round_aux_nonneg (xorb false false) mz ez lz Hq) as Hr.
    destruct (binary_round_aux prec emax (xorb false false) mz ez lz)
      as [ s | s | | s m' e' ]; try contradiction; simpl in Hr; subst s;
      reflexivity.
Qed.

Lemma fgt_fge a b : fgt a b = true -> fge a b = true.
Proof.
  unfold fgt, fge. intros H.
  change (SFleb b a) with (fle b a). rewrite fle_flt_or_eq.
  unfold flt. rewrite H. reflexivity.
Qed.

Hypothesis Htty : tty_wf tty.

(** X27: no command reverses a velocity: components that are numbers of
    the format above zero are not below zero after [handle_command]
    (halving can reach zero, nothing can go past it). *)
Theorem commands_keep_direction c command e :
  vec2_valid prec emax (delta e) = true ->
  delta_above_min prec emax (delta e) = true ->
  fge (x (delta (snd (handle_command prec emax tty c command e))))
      (of_int prec emax 0) = true
  /\ fge (y (delta (snd (handle_command prec emax tty c command e))))
         (of_int prec emax 0) = true.
Proof.
  intros Hvalid Hmin.
  unfold vec2_valid in Hvalid. apply andb_true_iff in Hvalid.
  destruct Hvalid as [Hvx Hvy].
  pose proof Hmin as Hmin'. unfold delta_above_min in Hmin'.
  unfold MIN_ENTITY_DELTA_X, MIN_ENTITY_DELTA_Y in Hmin'.
  apply andb_true_iff in Hmin'. destruct Hmin' as [Hpx Hpy].
  assert (Hsame : fge (x (delta e)) (of_int prec emax 0) = true
                  /\ fge (y (delta e)) (of_int prec emax 0) = true)
    by (split; apply fgt_fge; assumption).
  destruct (display_bounds tty Htty) as [Hw Hh].
  rewrite handle_command_entity.
  destruct command; try exact Hsame.
  - destruct (c =? key "w");
      [ destruct (size_below_half prec emax tty (size e)); exact Hsame | ].
    destruct (c =? key "s"); [ | exact Hsame ].
    destruct (size_above_min prec emax (size e)); exact Hsame.
  - destruct (c =? key "w").
    + destruct (delta_below_extent prec emax tty (delta e)) eqn:G;
        [ | exact Hsame ].
      unfold delta_below_extent in G. apply andb_true_iff in G.
      destruct G as [Gx Gy]. cbn [delta]. unfold doubled_delta. cbn [x y].
      destruct (halve_double_component prec emax Hprec Hemax (x (delta e))
                  (DISPLAY_WIDTH tty) Hw Hvx Hpx Gx) as [_ Hx].
      destruct (halve_double_component prec emax Hprec Hemax (y (delta e))
                  (DISPLAY_HEIGHT tty) Hh Hvy Hpy Gy) as [_ Hy].
      split; apply fgt_fge; assumption.
    + destruct (c =? key "s"); [ | exact Hsame ].
      rewrite Hmin. cbn [delta x y].
      split; apply halve_component_nonneg; assumption.
Qed.

End Never.

(** ** Negated vectors *)

Section Negation.

Variables prec emax : Z.

Lemma fmul_self_not_below_zero v :
  is_nan v = false -> not_below_zero (fmul prec emax v v) = true.
Proof.
  unfold fmul, SFmul. destruct v as [ s | s | | s m e ]; try discriminate;
    intros _; try (destruct s; reflexivity).
  rewrite xorb_nilpotent.
  pose proof (binary_round_aux_nonneg prec emax false
                (Zpos (m * m)) (e + e) loc_Exact ltac:(lia)) as H.
  destruct (binary_round_aux prec emax false (Zpos (m * m)) (e + e)
              loc_Exact) as [ s' | s' | | s' m' e' ];
    try contradiction; subst s'; reflexivity.
Qed.

Lemma fadd_not_below_zero a b :
  not_below_zero a = true -> not_below_zero b = true ->
  not_below_zero (fadd prec emax a b) = true.
Proof.
  unfold fadd, SFadd.
  destruct a as [ sa | sa | | sa ma ea ], b as [ sb | sb | | sb mb eb ];
    try discriminate;
    try (destruct sa; try discriminate); try (destruct sb; try discriminate);
    intros _ _; try reflexivity.
  cbn [cond_Zopp]. change (Zpos ?p + Zpos ?q) with (Zpos (p + q)).
  cbn [binary_normalize]. unfold binary_round.
  destruct (shl_align _ _ _) as [mz ez].
  pose proof (binary_round_aux_nonneg prec emax false (Zpos mz) ez loc_Exact
                ltac:(lia)) as H.
  destruct (binary_round_aux prec emax false (Zpos mz) ez loc_Exact)
    as [ s' | s' | | s' m' e' ]; try contradiction; subst s'; reflexivity.
Qed.

Lemma SFsqrt_core_nonneg m e :
  0 <= fst (fst (SFsqrt_core_binary prec emax (Zpos m) e)).
Proof.
  unfold SFsqrt_core_binary.
  match goal with
  | |- context [Z.sqrtrem ?a] =>
      pose proof (Z.sqrt_nonneg a) as Hs;
      rewrite <- Z.sqrtrem_sqrt in Hs; destruct (Z.sqrtrem a); exact Hs
  end.
Qed.

(** The square root of a value that is not a NaN and not below zero is not
    a NaN. *)
Lemma fsqrt_not_nan v :
  not_below_zero v = true -> is_nan (SFsqrt prec emax v) = false.
Proof.
  unfold SFsqrt. destruct v as [ s | s | | s m e ]; try discriminate;
    try (destruct s; try discriminate; reflexivity).
  destruct s; [ discriminate | intros _ ].
  pose proof (SFsqrt_core_nonneg m e) as Hq.
  destruct (SFsqrt_core_binary prec emax (Zpos m) e) as [[mz ez] lz].
  simpl in Hq. now apply binary_round_aux_not_nan.
Qed.

(** X19: for a vector [a] without NaN components and a vector [b] with
    finite components, [vec2_sub a b] is [vec2_add a (vec2_negate b)]
    (signed zeros and infinities included), and neither component of the
    result is a NaN. *)
Theorem vec2_sub_add_negate a b :
  is_nan (x a) = false -> is_nan (y a) = false ->
  vec2_finite b = true ->
  vec2_sub prec emax a b = vec2_add prec emax a (vec2_negate b)
  /\ is_nan (x (vec2_sub prec emax a b)) = false
  /\ is_nan (y (vec2_sub prec emax a b)) = false.
Proof.
  intros Hx Hy Hb. unfold vec2_finite in Hb. apply andb_true_iff in Hb.
  destruct Hb as [Hbx Hby].
  unfold vec2_sub, vec2_add, vec2_negate. cbn [x y].
  rewrite !fsub_fadd_fneg. split; [ reflexivity | ].
  split; apply fadd_not_nan; rewrite ?fneg_finite; assumption.
Qed.

(** X20: for a vector without NaN components, [vec2_len] is not a NaN and
    does not see the direction: the vector and its negation have the same
    length. *)
Theorem vec2_len_negate a :
  is_nan (x a) = false -> is_nan (y a) = false ->
  is_nan (vec2_len prec emax a) = false
  /\ vec2_len prec emax (vec2_negate a) = vec2_len prec emax a.
Proof.
  intros Hx Hy. split.
  - unfold vec2_len. apply fsqrt_not_nan, fadd_not_below_zero;
      now apply fmul_self_not_below_zero.
  - unfold vec2_len, vec2_negate. cbn [x y].
    rewrite !fmul_fneg_fneg. reflexivity.
Qed.

End Negation.

(** ** Cells with integer coordinates *)

Section Cells.

Variables prec emax : Z.
Variable tty : tty_ctx_t.
Hypothesis Hprec : 53 <= prec.
Hypothesis Hemax : 1024 <= emax.
Hypothesis Htty : tty_wf tty.

(** X21: on a point made of two [int]s, [out_of_bounds] is the test on the
    [int]s: column below 1 or at least [DISPLAY_WIDTH], or row below 1 or
    at least [DISPLAY_HEIGHT]. *)
Theorem out_of_bounds_integer_cell i j :
  INT_MIN <= i <= INT_MAX -> INT_MIN <= j <= INT_MAX ->
  out_of_bounds prec emax tty (vec2_new prec emax i j)
  = ((i <? 1) || (DISPLAY_WIDTH tty <=? i))
    || ((j <? 1) || (DISPLAY_HEIGHT tty <=? j)).
Proof.
  intros Hi Hj. unfold vec2_new.
  now apply (out_of_bounds_of_int prec emax tty Hprec Hemax Htty).
Qed.

(** X22: the cursor is put on the cell that was asked for: a point made of
    the [int]s column [i] and row [j] is addressed as [(i, j)], the
    conversion to [f64] and back losing nothing. *)
Theorem draw_cell_round_trip i j :
  INT_MIN <= i <= INT_MAX -> INT_MIN <= j <= INT_MAX ->
  draw_cell (vec2_new prec emax i j) = Some (i, j).
Proof.
  intros Hi Hj. unfold vec2_new.
  now apply (draw_cell_of_int prec emax Hprec Hemax).
Qed.

End Cells.

(** ** The properties above on concrete inputs *)

Lemma x87_prec_wide : 53 <= x87_prec.
Proof. unfold x87_prec. lia. Defined.

Lemma x87_emax_wide : 1024 <= x87_emax.
Proof. unfold x87_emax. lia. Defined.

Lemma tty_80x24_wf : tty_wf tty_80x24.
Proof. unfold tty_wf. simpl. lia. Defined.

Lemma tty_80x25_wf : tty_wf tty_80x25.
Proof. unfold tty_wf. simpl. lia. Defined.

Lemma tty_80x24_width : 2 <= DISPLAY_WIDTH tty_80x24.
Proof. vm_compute. discriminate. Defined.

Lemma tty_80x24_height : 2 <= DISPLAY_HEIGHT tty_80x24.
Proof. vm_compute. discriminate. Defined.

Lemma constrain_fixes_exactly_in_bounds_witness :
  53 <= x87_prec /\ 1024 <= x87_emax /\ tty_wf tty_80x24
  /\ 2 <= DISPLAY_WIDTH tty_80x24 /\ 2 <= DISPLAY_HEIGHT tty_80x24
  /\ (constrain x87_prec x87_emax tty_80x24 (pos entity_near_right_edge)
      = pos entity_near_right_edge
      <-> out_of_bounds x87_prec x87_emax tty_80x24
            (pos entity_near_right_edge) = false).
Proof.
  split; [ exact x87_prec_wide | ]. split; [ exact x87_emax_wide | ].
  split; [ exact tty_80x24_wf | ]. split; [ exact tty_80x24_width | ].
  split; [ exact tty_80x24_height | ].
  exact (constrain_fixes_exactly_in_bounds x87_prec x87_emax tty_80x24
           x87_prec_wide x87_emax_wide tty_80x24_wf tty_80x24_width
           tty_80x24_height (pos entity_near_right_edge)).
Defined.

Lemma constrain_never_out_of_bounds_witness :
  53 <= x87_prec /\ 1024 <= x87_emax /\ tty_wf tty_80x24
  /\ 2 <= DISPLAY_WIDTH tty_80x24 /\ 2 <= DISPLAY_HEIGHT tty_80x24
  /\ out_of_bounds x87_prec x87_emax tty_80x24
       (constrain x87_prec x87_emax tty_80x24 (pos x87_default)) = false.
Proof.
  split; [ exact x87_prec_wide | ]. split; [ exact x87_emax_wide | ].
  split; [ exact tty_80x24_wf | ]. split; [ exact tty_80x24_width | ].
  split; [ exact tty_80x24_height | ].
  exact (constrain_never_out_of_bounds x87_prec x87_emax tty_80x24
           x87_prec_wide x87_emax_wide tty_80x24_wf tty_80x24_width
           tty_80x24_height (pos x87_default)).
Defined.

Lemma constrain_idempotent_witness :
  53 <= x87_prec /\ 1024 <= x87_emax /\ tty_wf tty_80x24
  /\ 2 <= DISPLAY_WIDTH tty_80x24 /\ 2 <= DISPLAY_HEIGHT tty_80x24
  /\ constrain x87_prec x87_emax tty_80x24
       (constrain x87_prec x87_emax tty_80x24 (pos x87_default))
     = constrain x87_prec x87_emax tty_80x24 (pos x87_default).
Proof.
  split; [ exact x87_prec_wide | ]. split; [ exact x87_emax_wide | ].
  split; [ exact tty_80x24_wf | ]. split; [ exact tty_80x24_width | ].
  split; [ exact tty_80x24_height | ].
  exact (constrain_idempotent x87_prec x87_emax tty_80x24
           x87_prec_wide x87_emax_wide tty_80x24_wf tty_80x24_width
           tty_80x24_height (pos x87_default)).
Defined.

Lemma double_reflection_restores_velocity_witness :
  reflected_axis x87_prec x87_emax tty_80x24 entity_fast_left = Some AxisX
  /\ reflected_axis x87_prec x87_emax tty_80x24
       (entity_move x87_prec x87_emax tty_80x24 entity_fast_left)
     = Some AxisX
  /\ delta (entity_move x87_prec x87_emax tty_80x24
              (entity_move x87_prec x87_emax tty_80x24 entity_fast_left))
     = delta entity_fast_left.
Proof.
  assert (H1 : reflected_axis x87_prec x87_emax tty_80x24 entity_fast_left
               = Some AxisX) by (vm_compute; reflexivity).
  assert (H2 : reflected_axis x87_prec x87_emax tty_80x24
                 (entity_move x87_prec x87_emax tty_80x24 entity_fast_left)
               = Some AxisX) by (vm_compute; reflexivity).
  split; [ exact H1 | ]. split; [ exact H2 | ].
  exact (double_reflection_restores_velocity x87_prec x87_emax tty_80x24
           entity_fast_left AxisX H1 H2).
Defined.

Lemma entity_at_rest_stays_witness :
  53 <= x87_prec /\ 1024 <= x87_emax
  /\ is_zero (x (delta entity_at_rest)) = true
  /\ is_zero (y (delta entity_at_rest)) = true
  /\ collision x87_prec x87_emax tty_80x24 (pos entity_at_rest) = false
  /\ collision x87_prec x87_emax tty_80x24
       (vec2_add x87_prec x87_emax (pos entity_at_rest) (size entity_at_rest))
     = false
  /\ entity_move x87_prec x87_emax tty_80x24 entity_at_rest = entity_at_rest.
Proof.
  split; [ exact x87_prec_wide | ]. split; [ exact x87_emax_wide | ].
  split; [ reflexivity | ]. split; [ reflexivity | ].
  split; [ vm_compute; reflexivity | ]. split; [ vm_compute; reflexivity | ].
  apply (entity_at_rest_stays x87_prec x87_emax tty_80x24
           x87_prec_wide x87_emax_wide entity_at_rest);
    vm_compute; reflexivity.
Defined.

Lemma bounce_off_left_wall_witness :
  53 <= x87_prec /\ 1024 <= x87_emax /\ tty_wf tty_80x24
  /\ 2 <= DISPLAY_WIDTH tty_80x24
  /\ fge (x87_int 1) (x (new_pos_of x87_prec x87_emax entity_into_top_left))
     = true
  /\ x (pos (entity_move x87_prec x87_emax tty_80x24 entity_into_top_left))
     = x87_int 1.
Proof.
  split; [ exact x87_prec_wide | ]. split; [ exact x87_emax_wide | ].
  split; [ exact tty_80x24_wf | ]. split; [ exact tty_80x24_width | ].
  split; [ vm_compute; reflexivity | ].
  apply (bounce_off_left_wall x87_prec x87_emax tty_80x24
           x87_prec_wide x87_emax_wide tty_80x24_wf tty_80x24_width
           entity_into_top_left).
  vm_compute. reflexivity.
Defined.

Lemma bounce_off_right_wall_witness :
  53 <= x87_prec /\ 1024 <= x87_emax /\ tty_wf tty_80x24
  /\ 2 <= DISPLAY_WIDTH tty_80x24
  /\ collision x87_prec x87_emax tty_80x24
       (new_pos_of x87_prec x87_emax entity_into_bottom_right) = false
  /\ fge (x (new_end_of x87_prec x87_emax entity_into_bottom_right))
         (x87_int (DISPLAY_WIDTH tty_80x24)) = true
  /\ delta (entity_move x87_prec x87_emax tty_80x24 entity_into_bottom_right)
     = mk_vec2 (fneg (x (delta entity_into_bottom_right)))
               (y (delta entity_into_bottom_right)).
Proof.
  split; [ exact x87_prec_wide | ]. split; [ exact x87_emax_wide | ].
  split; [ exact tty_80x24_wf | ]. split; [ exact tty_80x24_width | ].
  split; [ vm_compute; reflexivity | ]. split; [ vm_compute; reflexivity | ].
  apply (bounce_off_right_wall x87_prec x87_emax tty_80x24
           x87_prec_wide x87_emax_wide tty_80x24_wf tty_80x24_width
           entity_into_bottom_right);
    vm_compute; reflexivity.
Defined.

Lemma unrecognised_key_ignored_witness :
  unrecognised (key "x")
  /\ handle_command x87_prec x87_emax tty_80x24 (key "x") RESIZE x87_default
     = (RESIZE, x87_default).
Proof.
  assert (H : unrecognised (key "x"))
    by (unfold unrecognised; repeat split; discriminate).
  split; [ exact H | ].
  exact (unrecognised_key_ignored x87_prec x87_emax tty_80x24 (key "x")
           RESIZE x87_default H).
Defined.

Lemma mode_transitions_witness :
  fst (handle_command x87_prec x87_emax tty_80x24 (key "r") NORMAL x87_default)
  = RESIZE
  /\ (RESIZE = NORMAL
      \/ (RESIZE = QUIT /\ key "r" = key "q")
      \/ (RESIZE = NORMAL /\ key "r" = key "n")
      \/ (NORMAL = NORMAL /\ RESIZE = RESIZE /\ key "r" = key "r")
      \/ (NORMAL = NORMAL /\ RESIZE = SPEED /\ key "r" = key "s")).
Proof.
  split; [ reflexivity | ].
  apply (mode_transitions x87_prec x87_emax tty_80x24 (key "r") NORMAL
           x87_default RESIZE).
  reflexivity.
Defined.

Lemma whole_size_invariant_witness :
  53 <= x87_prec /\ 1024 <= x87_emax /\ tty_wf tty_80x24
  /\ 1 <= 2 <= 65535 /\ 1 <= 1 <= 65535
  /\ size x87_default = mk_vec2 (x87_int 2) (x87_int 1)
  /\ exists d,
       size (snd (handle_command x87_prec x87_emax tty_80x24 (key "w") RESIZE
                    x87_default))
       = mk_vec2 (x87_int (2 + d)) (x87_int (1 + d))
       /\ -1 <= d <= 1
       /\ 1 <= 2 + d <= 65535 /\ 1 <= 1 + d <= 65535.
Proof.
  split; [ exact x87_prec_wide | ]. split; [ exact x87_emax_wide | ].
  split; [ exact tty_80x24_wf | ]. split; [ lia | ]. split; [ lia | ].
  split; [ reflexivity | ].
  apply (whole_size_invariant x87_prec x87_emax tty_80x24
           x87_prec_wide x87_emax_wide tty_80x24_wf (key "w") RESIZE
           x87_default 2 1); [ lia | lia | reflexivity ].
Defined.

Lemma resize_shrink_undoes_grow_witness :
  53 <= x87_prec /\ 1024 <= x87_emax /\ tty_wf tty_80x24
  /\ 1 <= 2 <= 65535 /\ 1 <= 1 <= 65535
  /\ size x87_default = mk_vec2 (x87_int 2) (x87_int 1)
  /\ size_below_half x87_prec x87_emax tty_80x24 (size x87_default) = true
  /\ handle_command x87_prec x87_emax tty_80x24 (key "s") RESIZE
       (snd (handle_command x87_prec x87_emax tty_80x24 (key "w") RESIZE
               x87_default))
     = (RESIZE, x87_default).
Proof.
  split; [ exact x87_prec_wide | ]. split; [ exact x87_emax_wide | ].
  split; [ exact tty_80x24_wf | ]. split; [ lia | ]. split; [ lia | ].
  split; [ reflexivity | ]. split; [ vm_compute; reflexivity | ].
  apply (resize_shrink_undoes_grow x87_prec x87_emax tty_80x24
           x87_prec_wide x87_emax_wide tty_80x24_wf x87_default 2 1);
    [ lia | lia | reflexivity | vm_compute; reflexivity ].
Defined.

Lemma resize_grow_undoes_shrink_witness :
  53 <= x87_prec /\ 1024 <= x87_emax /\ tty_wf tty_80x25
  /\ 2 <= 12 <= MAX_ENTITY_WIDTH tty_80x25
  /\ 2 <= 11 <= MAX_ENTITY_HEIGHT tty_80x25
  /\ size entity_size_12_11 = mk_vec2 (x87_int 12) (x87_int 11)
  /\ handle_command x87_prec x87_emax tty_80x25 (key "w") RESIZE
       (snd (handle_command x87_prec x87_emax tty_80x25 (key "s") RESIZE
               entity_size_12_11))
     = (RESIZE, entity_size_12_11).
Proof.
  assert (Hx : 2 <= 12 <= MAX_ENTITY_WIDTH tty_80x25)
    by (vm_compute; split; discriminate).
  assert (Hy : 2 <= 11 <= MAX_ENTITY_HEIGHT tty_80x25)
    by (vm_compute; split; discriminate).
  split; [ exact x87_prec_wide | ]. split; [ exact x87_emax_wide | ].
  split; [ exact tty_80x25_wf | ]. split; [ exact Hx | ]. split; [ exact Hy | ].
  split; [ reflexivity | ].
  exact (resize_grow_undoes_shrink x87_prec x87_emax tty_80x25
           x87_prec_wide x87_emax_wide tty_80x25_wf entity_size_12_11 12 11
           Hx Hy eq_refl).
Defined.

Lemma main_loop_quits_iff_q_witness :
  NORMAL <> QUIT
  /\ (fst (main_loop x87_prec x87_emax tty_80x24 [EOF; key "q"; key "w"]
             NORMAL x87_default) = QUIT
      <-> In (key "q") [EOF; key "q"; key "w"]).
Proof.
  assert (H : NORMAL <> QUIT) by discriminate.
  split; [ exact H | ].
  exact (main_loop_quits_iff_q x87_prec x87_emax tty_80x24
           [EOF; key "q"; key "w"] NORMAL x87_default H).
Defined.

Lemma main_loop_without_keys_witness :
  SPEED <> QUIT /\ Forall unrecognised [EOF; key "x"]
  /\ main_loop x87_prec x87_emax tty_80x24 [EOF; key "x"] SPEED x87_default
     = (SPEED, steps x87_prec x87_emax tty_80x24 2 x87_default).
Proof.
  assert (H : SPEED <> QUIT) by discriminate.
  assert (F : Forall unrecognised [EOF; key "x"])
    by (repeat constructor; discriminate).
  split; [ exact H | ]. split; [ exact F | ].
  exact (main_loop_without_keys x87_prec x87_emax tty_80x24
           [EOF; key "x"] SPEED x87_default H F).
Defined.

Lemma out_of_bounds_integer_cell_witness :
  53 <= x87_prec /\ 1024 <= x87_emax /\ tty_wf tty_80x24
  /\ INT_MIN <= 79 <= INT_MAX /\ INT_MIN <= 5 <= INT_MAX
  /\ out_of_bounds x87_prec x87_emax tty_80x24 (vec2_new x87_prec x87_emax 79 5)
     = ((79 <? 1) || (DISPLAY_WIDTH tty_80x24 <=? 79))
       || ((5 <? 1) || (DISPLAY_HEIGHT tty_80x24 <=? 5)).
Proof.
  assert (Hi : INT_MIN <= 79 <= INT_MAX) by (unfold INT_MIN, INT_MAX; lia).
  assert (Hj : INT_MIN <= 5 <= INT_MAX) by (unfold INT_MIN, INT_MAX; lia).
  split; [ exact x87_prec_wide | ]. split; [ exact x87_emax_wide | ].
  split; [ exact tty_80x24_wf | ]. split; [ exact Hi | ]. split; [ exact Hj | ].
  exact (out_of_bounds_integer_cell x87_prec x87_emax tty_80x24
           x87_prec_wide x87_emax_wide tty_80x24_wf 79 5 Hi Hj).
Defined.

Lemma draw_cell_round_trip_witness :
  53 <= x87_prec /\ 1024 <= x87_emax
  /\ INT_MIN <= 0 <= INT_MAX /\ INT_MIN <= 23 <= INT_MAX
  /\ draw_cell (vec2_new x87_prec x87_emax 0 23) = Some (0, 23).
Proof.
  assert (Hi : INT_MIN <= 0 <= INT_MAX) by (unfold INT_MIN, INT_MAX; lia).
  assert (Hj : INT_MIN <= 23 <= INT_MAX) by (unfold INT_MIN, INT_MAX; lia).
  split; [ exact x87_prec_wide | ]. split; [ exact x87_emax_wide | ].
  split; [ exact Hi | ]. split; [ exact Hj | ].
  exact (draw_cell_round_trip x87_prec x87_emax x87_prec_wide x87_emax_wide
           0 23 Hi Hj).
Defined.

Lemma entity_draw_inside_viewport_witness :
  53 <= x87_prec /\ 1024 <= x87_emax /\ tty_wf tty_80x24
  /\ entity_draw x87_prec x87_emax tty_80x24 4 entity_after_first_step
     = Some [(1, 22); (2, 22); (3, 22)]
  /\ Forall (cell_in_viewport tty_80x24) [(1, 22); (2, 22); (3, 22)].
Proof.
  assert (H : entity_draw x87_prec x87_emax tty_80x24 4 entity_after_first_step
              = Some [(1, 22); (2, 22); (3, 22)]) by (vm_compute; reflexivity).
  split; [ exact x87_prec_wide | ]. split; [ exact x87_emax_wide | ].
  split; [ exact tty_80x24_wf | ]. split; [ exact H | ].
  exact (entity_draw_inside_viewport x87_prec x87_emax tty_80x24
           x87_prec_wide x87_emax_wide tty_80x24_wf 4 entity_after_first_step
           _ H).
Defined.

Lemma entity_draw_finishes_witness :
  53 <= x87_prec /\ 1024 <= x87_emax /\ tty_wf tty_80x24
  /\ to_int (x (pos entity_after_first_step)) = Some 1
  /\ to_int (y (pos entity_after_first_step)) = Some 22
  /\ INT_MIN <= 4 <= INT_MAX /\ INT_MIN <= 23 <= INT_MAX
  /\ fle (fadd x87_prec x87_emax (x (pos entity_after_first_step))
            (x (size entity_after_first_step))) (x87_int 4) = true
  /\ fle (fadd x87_prec x87_emax (y (pos entity_after_first_step))
            (y (size entity_after_first_step))) (x87_int 23) = true
  /\ exists cells,
       forall fuel,
         (Z.to_nat (4 - 1) < fuel)%nat -> (Z.to_nat (23 - 22) < fuel)%nat ->
         entity_draw x87_prec x87_emax tty_80x24 fuel entity_after_first_step
         = Some cells.
Proof.
  assert (Hi : INT_MIN <= 4 <= INT_MAX) by (unfold INT_MIN, INT_MAX; lia).
  assert (Hj : INT_MIN <= 23 <= INT_MAX) by (unfold INT_MIN, INT_MAX; lia).
  split; [ exact x87_prec_wide | ]. split; [ exact x87_emax_wide | ].
  split; [ exact tty_80x24_wf | ].
  split; [ vm_compute; reflexivity | ]. split; [ vm_compute; reflexivity | ].
  split; [ exact Hi | ]. split; [ exact Hj | ].
  split; [ vm_compute; reflexivity | ]. split; [ vm_compute; reflexivity | ].
  apply (entity_draw_finishes x87_prec x87_emax tty_80x24
           x87_prec_wide x87_emax_wide tty_80x24_wf entity_after_first_step
           1 22 4 23); try assumption; vm_compute; reflexivity.
Defined.

Lemma entity_draw_whole_cells_witness :
  53 <= x87_prec /\ 1024 <= x87_emax /\ tty_wf tty_80x24
  /\ pos entity_whole = mk_vec2 (x87_int 3) (x87_int 4)
  /\ size entity_whole
     = mk_vec2 (x87_int (Z.of_nat 2)) (x87_int (Z.of_nat 2))
  /\ 1 <= 3 /\ 3 + Z.of_nat 2 <= DISPLAY_WIDTH tty_80x24
  /\ 1 <= 4 /\ 4 + Z.of_nat 2 <= DISPLAY_HEIGHT tty_80x24
  /\ entity_draw x87_prec x87_emax tty_80x24 3 entity_whole
     = Some [(3, 4); (4, 4); (3, 5); (4, 5)].
Proof.
  split; [ exact x87_prec_wide | ]. split; [ exact x87_emax_wide | ].
  split; [ exact tty_80x24_wf | ].
  split; [ reflexivity | ]. split; [ reflexivity | ].
  split; [ lia | ]. split; [ vm_compute; discriminate | ].
  split; [ lia | ]. split; [ vm_compute; discriminate | ].
  apply (entity_draw_whole_cells x87_prec x87_emax tty_80x24
           x87_prec_wide x87_emax_wide tty_80x24_wf 3 entity_whole 3 4 2 2);
    try reflexivity; try lia; vm_compute; discriminate.
Defined.

Lemma entity_move_no_nan_witness :
  entity_finite x87_default = true
  /\ is_nan (x (pos (entity_move x87_prec x87_emax tty_80x24 x87_default)))
     = false.
Proof.
  split; [ reflexivity | ].
  exact (proj1 (entity_move_no_nan x87_prec x87_emax tty_80x24 x87_default
                  eq_refl)).
Defined.

Lemma commands_keep_direction_witness :
  53 <= x87_prec /\ 1024 <= x87_emax /\ tty_wf tty_80x24
  /\ vec2_valid x87_prec x87_emax (delta x87_default) = true
  /\ delta_above_min x87_prec x87_emax (delta x87_default) = true
  /\ fge (x (delta (snd (handle_command x87_prec x87_emax tty_80x24 (key "s")
                           SPEED x87_default))))
         (x87_int 0) = true.
Proof.
  split; [ exact x87_prec_wide | ]. split; [ exact x87_emax_wide | ].
  split; [ exact tty_80x24_wf | ].
  split; [ vm_compute; reflexivity | ]. split; [ vm_compute; reflexivity | ].
  apply (commands_keep_direction x87_prec x87_emax tty_80x24
           x87_prec_wide x87_emax_wide tty_80x24_wf (key "s") SPEED
           x87_default); vm_compute; reflexivity.
Defined.

Lemma vec2_sub_add_negate_witness :
  is_nan (x (pos entity_fast_left)) = false
  /\ is_nan (y (pos entity_fast_left)) = false
  /\ vec2_finite (delta entity_fast_left) = true
  /\ vec2_sub x87_prec x87_emax (pos entity_fast_left) (delta entity_fast_left)
     = vec2_add x87_prec x87_emax (pos entity_fast_left)
         (vec2_negate (delta entity_fast_left)).
Proof.
  split; [ reflexivity | ]. split; [ reflexivity | ].
  split; [ reflexivity | ].
  exact (proj1 (vec2_sub_add_negate x87_prec x87_emax (pos entity_fast_left)
                  (delta entity_fast_left) eq_refl eq_refl eq_refl)).
Defined.

Lemma vec2_len_negate_witness :
  is_nan (x (delta x87_default)) = false
  /\ is_nan (y (delta x87_default)) = false
  /\ vec2_len x87_prec x87_emax (vec2_negate (delta x87_default))
     = vec2_len x87_prec x87_emax (delta x87_default).
Proof.
  split; [ reflexivity | ]. split; [ reflexivity | ].
  exact (proj2 (vec2_len_negate x87_prec x87_emax (delta x87_default)
                  eq_refl eq_refl)).
Defined.
